(** * LiquidLaunch-stats: the wallet statistics dashboard of [src/App.tsx]

    A shallow embedding of the component [App] : its pure helpers
    ([isValidAddress], [formatNumber], the fee cell of the card), the
    asynchronous handlers [fetchWalletStats] and [downloadStatsImage], and the
    properties of the controller and of the image export.

    - JavaScript strings are sequences of UTF-16 code units.
    - JavaScript numbers are IEEE 754 binary64 values, taken from the
      Standard Library's [SpecFloat] at precision 53 and maximal exponent 1024.
    - An [async] function is a finite tree of effects whose [Await] nodes are
      the suspension points; [try]/[catch]/[finally] are functions on trees.
    - The page is a world (the state variables, the ref to the card, the
      inline styles) and the handlers that wait on a promise; a step runs
      one handler up to its next suspension point. *)

From Stdlib Require Import ZArith NArith List Bool Ascii String Lia.
From Stdlib Require Import Floats.SpecFloat.
Import ListNotations.

Local Open Scope Z_scope.
Set Warnings "-register-all".

(** ** JavaScript strings *)

Module JsString.

(** A code unit of a string, and a string. *)
Definition char16 := N.
Definition jsstr := list char16.

(** A literal of the source, written in ASCII. *)
Definition lit (s : string) : jsstr := map N_of_ascii (list_ascii_of_string s).

Definition eqb (a b : jsstr) : bool :=
  (fix go (a b : jsstr) : bool :=
     match a, b with
     | [], [] => true
     | x :: a', y :: b' => N.eqb x y && go a' b'
     | _, _ => false
     end) a b.

(** [WhiteSpace] and [LineTerminator] of ECMAScript, the code units that
    [String.prototype.trim] strips. *)
Definition is_white_space (c : char16) : bool :=
  ((9 <=? c) && (c <=? 13) || (c =? 32) || (c =? 160) || (c =? 5760)
   || (8192 <=? c) && (c <=? 8202) || (c =? 8232) || (c =? 8233)
   || (c =? 8239) || (c =? 8287) || (c =? 12288) || (c =? 65279))%N.

Fixpoint trimStart (s : jsstr) : jsstr :=
  match s with
  | c :: s' => if is_white_space c then trimStart s' else s
  | [] => []
  end.

Definition trimEnd (s : jsstr) : jsstr := rev (trimStart (rev s)).

(** [s.trim()] *)
Definition trim (s : jsstr) : jsstr := trimEnd (trimStart s).

(** [s.slice(0, n)] for a non-negative [n] : the first [n] code units, or the
    whole string when it is shorter. *)
Definition slice0 (n : nat) (s : jsstr) : jsstr := firstn n s.

(** A string is falsy exactly when it is empty. *)
Definition truthy (s : jsstr) : bool :=
  match s with [] => false | _ => true end.

Definition is_digit (c : char16) : bool := ((48 <=? c) && (c <=? 57))%N.

Definition is_hex_digit (c : char16) : bool :=
  (is_digit c || (97 <=? c) && (c <=? 102) || (65 <=? c) && (c <=? 70))%N.

(** Whether [p] is a prefix of [s], and the rest of [s] after it. *)
Fixpoint strip_prefix (p s : jsstr) : option jsstr :=
  match p, s with
  | [], _ => Some s
  | x :: p', y :: s' => if N.eqb x y then strip_prefix p' s' else None
  | _ :: _, [] => None
  end.

End JsString.

Import JsString.

(** ** Thrown values and completions *)

(** What a [throw] carries, as far as [err instanceof Error] and
    [err.message] can tell: an [Error] object (of any subclass: [TypeError],
    [SyntaxError], [RangeError], a [DOMException]) with its message, or any
    other value. *)
Inductive thrown : Type :=
| ErrorObject (name message : jsstr)
| OtherValue.

(** The outcome of evaluating an expression that may throw. *)
Inductive completion (A : Type) : Type :=
| Normal (a : A)
| Abrupt (t : thrown).
Arguments Normal {A} a.
Arguments Abrupt {A} t.

Definition completion_map {A B} (f : A -> B) (c : completion A) : completion B :=
  match c with
  | Normal a => Normal (f a)
  | Abrupt t => Abrupt t
  end.

(** ** JavaScript numbers *)

Module JsNumber.

(** A Number is a binary64 value: 53 bits of precision, infinities at
    exponent 1024. *)
Definition prec : Z := 53.
Definition emax : Z := 1024.
Definition number := spec_float.

(** The values the language can produce are the canonical ones. *)
Definition valid (x : number) : bool := valid_binary prec emax x.

Definition NaN : number := S754_nan.
Definition zero : number := S754_zero false.

(** [x * y], [x / y] and [x >= y] of the language. *)
Definition mul (x y : number) : number := SFmul prec emax x y.
Definition div (x y : number) : number := SFdiv prec emax x y.
Definition geb (x y : number) : bool := SFleb y x.
Definition ltb (x y : number) : bool := SFltb x y.
Definition abs (x : number) : number := SFabs x.

Definition same (x y : number) : bool :=
  match x, y with
  | S754_zero a, S754_zero b => Bool.eqb a b
  | S754_infinity a, S754_infinity b => Bool.eqb a b
  | S754_nan, S754_nan => true
  | S754_finite a m e, S754_finite b n f => Bool.eqb a b && Pos.eqb m n && Z.eqb e f
  | _, _ => false
  end.

(** The Number nearest to [d * 10^e] (ties to even), for a natural [d] : the
    value of a decimal literal with digits [d] and decimal exponent [e], with
    the sign [neg] in front. *)
Definition of_decimal (neg : bool) (d : Z) (e : Z) : number :=
  match d with
  | Z0 => S754_zero neg
  | Zpos p =>
      if 0 <=? e then binary_round prec emax neg (p * Z.to_pos (10 ^ e)) 0
      else
        let '(q, e', l) := SFdiv_core_binary prec emax (Zpos p) 0 (10 ^ (- e)) 0 in
        binary_round_aux prec emax neg q e' l
  | Zneg _ => NaN
  end.

(** The Number of an integer literal. *)
Definition of_Z (z : Z) : number := binary_normalize prec emax z 0 false.

(** *** Decimal digits *)

Fixpoint uint_to_str (u : Decimal.uint) : jsstr :=
  match u with
  | Decimal.Nil => []
  | Decimal.D0 u' => 48%N :: uint_to_str u'
  | Decimal.D1 u' => 49%N :: uint_to_str u'
  | Decimal.D2 u' => 50%N :: uint_to_str u'
  | Decimal.D3 u' => 51%N :: uint_to_str u'
  | Decimal.D4 u' => 52%N :: uint_to_str u'
  | Decimal.D5 u' => 53%N :: uint_to_str u'
  | Decimal.D6 u' => 54%N :: uint_to_str u'
  | Decimal.D7 u' => 55%N :: uint_to_str u'
  | Decimal.D8 u' => 56%N :: uint_to_str u'
  | Decimal.D9 u' => 57%N :: uint_to_str u'
  end.

(** The decimal representation of a natural number, ["0"] for zero. *)
Definition digits_of (n : Z) : jsstr := uint_to_str (N.to_uint (Z.to_N n)).

(** The value of a string of decimal digits. *)
Definition digits_value (ds : jsstr) : Z :=
  fold_left (fun acc c => 10 * acc + (Z.of_N c - 48)) ds 0.

(** The longest prefix of decimal digits, and what follows it. *)
Fixpoint span_digits (s : jsstr) : jsstr * jsstr :=
  match s with
  | c :: s' =>
      if is_digit c then let (ds, r) := span_digits s' in (c :: ds, r)
      else ([], s)
  | [] => ([], [])
  end.

(** *** Exact values

    A positive finite Number [m * 2^e] as a fraction of two positive
    integers. *)
Definition ratio (m : positive) (e : Z) : Z * Z :=
  if 0 <=? e then (Zpos m * 2 ^ e, 1) else (Zpos m, 2 ^ (- e)).

(** [floor (P/Q / 10^j)] *)
Definition floor_scaled (P Q j : Z) : Z :=
  if 0 <=? j then P / (Q * 10 ^ j) else (P * 10 ^ (- j)) / Q.

(** The number of decimal digits of a positive integer. *)
Definition digits10 (z : Z) : Z := Z.of_nat (List.length (digits_of z)).

(** The [n] with [10^(n-1) <= P/Q < 10^n]. *)
Definition magnitude10 (P Q : Z) : Z :=
  if Q <=? P then digits10 (P / Q)
  else
    let D := digits10 (Q / P) in
    if P * 10 ^ (D - 1) <? Q then 1 - D else 2 - D.

(** *** Number::toString, radix 10

    For a positive finite [x = P/Q] of decimal magnitude [nx], the candidates
    with [k] digits are the two multiples of [10^(nx-k)] around [x]; one is
    kept when it reads back as [x], the closer one when both do, the even one
    on a tie. The result is the pair [(n, s)] of the language specification. *)
Definition candidate (x : number) (P Q nx k : Z) : option (Z * Z) :=
  let j := nx - k in
  let s0 := floor_scaled P Q j in
  let ok u := same (of_decimal false u j) x in
  let norm u := if u =? 10 ^ k then (nx + 1, 10 ^ (k - 1)) else (nx, u) in
  let side :=
    if 0 <=? j then (2 * P) ?= (2 * s0 + 1) * 10 ^ j * Q
    else (2 * P * 10 ^ (- j)) ?= (2 * s0 + 1) * Q in
  match ok s0, ok (s0 + 1) with
  | true, false => Some (norm s0)
  | false, true => Some (norm (s0 + 1))
  | true, true =>
      Some (norm match side with
                 | Lt => s0
                 | Gt => s0 + 1
                 | Eq => if Z.even s0 then s0 else s0 + 1
                 end)
  | false, false => None
  end.

(** The least [k] with a candidate, and its [(n, k, s)]. Seventeen digits
    always identify a binary64 value; the search stops a little later. *)
Fixpoint shortest (fuel : nat) (x : number) (P Q nx k : Z) : Z * Z * Z :=
  match candidate x P Q nx k with
  | Some (n, s) => (n, k, s)
  | None =>
      match fuel with
      | O => (nx, k, floor_scaled P Q (nx - k))
      | S fuel' => shortest fuel' x P Q nx (k + 1)
      end
  end.

Definition zeros (n : Z) : jsstr := repeat 48%N (Z.to_nat n).

Definition toString_positive (m : positive) (e : Z) : jsstr :=
  let '(P, Q) := ratio m e in
  let '(n, k, s) := shortest 20 (S754_finite false m e) P Q (magnitude10 P Q) 1 in
  let ds := digits_of s in
  if (k <=? n) && (n <=? 21) then ds ++ zeros (n - k)
  else if (0 <? n) && (n <=? 21) then
    firstn (Z.to_nat n) ds ++ lit "." ++ skipn (Z.to_nat n) ds
  else if (-6 <? n) && (n <=? 0) then lit "0." ++ zeros (- n) ++ ds
  else
    let ex := n - 1 in
    let tail := lit "e" ++ (if ex <? 0 then lit "-" else lit "+") ++ digits_of (Z.abs ex) in
    if k =? 1 then ds ++ tail
    else firstn 1 ds ++ lit "." ++ skipn 1 ds ++ tail.

Definition toString (x : number) : jsstr :=
  match x with
  | S754_nan => lit "NaN"
  | S754_zero _ => lit "0"
  | S754_infinity s => if s then lit "-Infinity" else lit "Infinity"
  | S754_finite s m e =>
      (if s then lit "-" else []) ++ toString_positive m e
  end.

(** *** Number.prototype.toFixed *)

(** The digits of [n / 10^f] : at least one digit before the point and
    exactly [f] after it. *)
Definition fixed_digits (n f : Z) : jsstr :=
  let m := digits_of n in
  if f =? 0 then m
  else
    let k := Z.of_nat (List.length m) in
    let m := if k <=? f then zeros (f + 1 - k) ++ m else m in
    let k := Z.of_nat (List.length m) in
    firstn (Z.to_nat (k - f)) m ++ lit "." ++ skipn (Z.to_nat (k - f)) m.

(** [x.toFixed(fractionDigits)] : a [RangeError] outside of 0..100; the
    non-finite values and the magnitudes from [10^21] on print as
    [toString] does; otherwise the integer [n] nearest to [x * 10^f], the
    larger one on a tie, printed with [f] decimals. *)
Definition toFixed (x : number) (fractionDigits : Z) : completion jsstr :=
  let f := fractionDigits in
  if (f <? 0) || (100 <? f) then
    Abrupt (ErrorObject (lit "RangeError")
              (lit "toFixed() digits argument must be between 0 and 100"))
  else
    match x with
    | S754_nan | S754_infinity _ => Normal (toString x)
    | S754_zero _ => Normal (fixed_digits 0 f)
    | S754_finite s m e =>
        let '(P, Q) := ratio m e in
        if 10 ^ 21 * Q <=? P then Normal (toString x)
        else
          let n := (2 * P * 10 ^ f + Q) / (2 * Q) in
          Normal ((if s then lit "-" else []) ++ fixed_digits n f)
    end.

(** *** parseFloat

    Leading white space is skipped, then the longest prefix that is a
    [StrDecimalLiteral] is read: an optional sign, then [Infinity] or decimal
    digits with an optional fraction and an optional exponent. Without such
    a prefix the result is [NaN]. The mathematical value of the prefix is
    rounded to the nearest Number. *)
(** An optional sign in front of the rest. *)
Definition strip_sign (s : jsstr) : bool * jsstr :=
  match s with
  | c :: r =>
      if (c =? 43)%N then (false, r)
      else if (c =? 45)%N then (true, r)
      else (false, s)
  | [] => (false, [])
  end.

(** The value of an [ExponentPart] at the head of [s], zero when there is
    none: [e] or [E], an optional sign, and at least one digit. *)
Definition parse_exponent (s : jsstr) : Z :=
  match s with
  | c :: r =>
      if (c =? 101)%N || (c =? 69)%N then
        let '(neg, r') := strip_sign r in
        let ds := fst (span_digits r') in
        if neg then - digits_value ds else digits_value ds
      else 0
  | [] => 0
  end.

(** What the longest [StrDecimalLiteral] prefix denotes: nothing, an
    infinity, or the mathematical value [d * 10^e] with its sign. *)
Inductive literal : Type :=
| NotANumber
| InfinityLiteral (neg : bool)
| DecimalLiteral (neg : bool) (d e : Z).

Definition scan_unsigned (neg : bool) (s : jsstr) : literal :=
  match strip_prefix (lit "Infinity") s with
  | Some _ => InfinityLiteral neg
  | None =>
      let '(ip, r1) := span_digits s in
      let '(fp, r2) :=
        match r1 with
        | c :: r => if (c =? 46)%N then span_digits r else ([], r1)
        | [] => ([], r1)
        end in
      match ip ++ fp with
      | [] => NotANumber
      | ds =>
          DecimalLiteral neg (digits_value ds)
            (parse_exponent r2 - Z.of_nat (List.length fp))
      end
  end.

Definition scan (input : jsstr) : literal :=
  let '(neg, s) := strip_sign (trimStart input) in
  scan_unsigned neg s.

Definition parseFloat (input : jsstr) : number :=
  match scan input with
  | NotANumber => NaN
  | InfinityLiteral neg => S754_infinity neg
  | DecimalLiteral neg d e => of_decimal neg d e
  end.

End JsNumber.

Import JsNumber.

(** ** JSON values

    What [response.json()] can resolve to. [JNull] is also the [null] that
    the state variable [stats] starts with. An object is the list of its own
    properties; a property that occurs twice is read at its first
    occurrence. *)

Inductive json : Type :=
| JNull
| JBool (b : bool)
| JNumber (x : number)
| JString (s : jsstr)
| JArray (items : list json)
| JObject (fields : list (jsstr * json)).

Module Json.

(** [!!v] *)
Definition truthy (v : json) : bool :=
  match v with
  | JNull => false
  | JBool b => b
  | JNumber (S754_zero _) | JNumber S754_nan => false
  | JNumber _ => true
  | JString s => JsString.truthy s
  | JArray _ | JObject _ => true
  end.

Fixpoint lookup (key : jsstr) (fields : list (jsstr * json)) : option json :=
  match fields with
  | [] => None
  | (k, v) :: rest => if JsString.eqb k key then Some v else lookup key rest
  end.

(** [v.key] for a [v] that is neither [null] nor [undefined] : [None] stands
    for [undefined]. The keys read by the program are not properties of
    strings, numbers, booleans or arrays. *)
Definition get (key : jsstr) (v : json) : option json :=
  match v with
  | JObject fields => lookup key fields
  | _ => None
  end.

Fixpoint join (sep : jsstr) (parts : list jsstr) : jsstr :=
  match parts with
  | [] => []
  | [p] => p
  | p :: rest => p ++ sep ++ join sep rest
  end.

(** [String(v)], as a template literal converts an interpolated value. *)
Fixpoint ToString (v : json) : jsstr :=
  match v with
  | JNull => lit "null"
  | JBool b => if b then lit "true" else lit "false"
  | JNumber x => JsNumber.toString x
  | JString s => s
  | JArray items =>
      join (lit ",")
        ((fix each (l : list json) : list jsstr :=
            match l with
            | [] => []
            | JNull :: l' => [] :: each l'
            | x :: l' => ToString x :: each l'
            end) items)
  | JObject _ => lit "[object Object]"
  end.

Definition type_error (message : string) : thrown :=
  ErrorObject (lit "TypeError") (lit message).

(** [v.slice(0, n)] for a property value [v] ([None] is [undefined]) : the
    method exists on strings and arrays; calling it on anything else is a
    [TypeError]. *)
Definition slice0 (n : nat) (v : option json) : completion json :=
  match v with
  | Some (JString s) => Normal (JString (JsString.slice0 n s))
  | Some (JArray items) => Normal (JArray (firstn n items))
  | Some JNull | None =>
      Abrupt (type_error "Cannot read properties of undefined (reading 'slice')")
  | Some _ => Abrupt (type_error "slice is not a function")
  end.

End Json.

(** ** The data model of the component *)

(** [interface WalletStats] *)
Record WalletStats : Type := {
  address : jsstr;
  total_volume : jsstr;
  total_trades : number;
  buy_count : number;
  sell_count : number;
  first_trade : number;
  last_trade : number
}.

(** A payload as the interface describes it: an object whose seven
    properties have the declared types. Other properties may be present. *)
Definition as_WalletStats (v : json) : option WalletStats :=
  match Json.get (lit "address") v, Json.get (lit "total_volume") v,
        Json.get (lit "total_trades") v, Json.get (lit "buy_count") v,
        Json.get (lit "sell_count") v, Json.get (lit "first_trade") v,
        Json.get (lit "last_trade") v with
  | Some (JString a), Some (JString vol), Some (JNumber trades),
    Some (JNumber buys), Some (JNumber sells), Some (JNumber first),
    Some (JNumber last) =>
      Some {| address := a; total_volume := vol; total_trades := trades;
              buy_count := buys; sell_count := sells; first_trade := first;
              last_trade := last |}
  | _, _, _, _, _, _, _ => None
  end.

Definition json_of_WalletStats (s : WalletStats) : json :=
  JObject [ (lit "address", JString (address s));
            (lit "total_volume", JString (total_volume s));
            (lit "total_trades", JNumber (total_trades s));
            (lit "buy_count", JNumber (buy_count s));
            (lit "sell_count", JNumber (sell_count s));
            (lit "first_trade", JNumber (first_trade s));
            (lit "last_trade", JNumber (last_trade s)) ].

(** The [useState] variables of [App]. *)
Record State : Type := {
  walletAddress : jsstr;
  stats : json;
  loading : bool;
  error : jsstr;
  isGeneratingImage : bool
}.

Definition initial_state : State :=
  {| walletAddress := []; stats := JNull; loading := false; error := [];
     isGeneratingImage := false |}.

(** A DOM element is known by its identity. The card that [statsCardRef]
    points to has a size and, when [querySelector] finds it, a save button. *)
Definition element := nat.

Record CardNode : Type := {
  offsetWidth : Z;
  offsetHeight : Z;
  saveButton : option element
}.

(** The state of the component, the current value of the ref, and the inline
    [style.display] of every element. *)
Record World : Type := {
  state : State;
  statsCardRef : option CardNode;
  display : element -> jsstr
}.

Definition initial_world : World :=
  {| state := initial_state; statsCardRef := None; display := fun _ => [] |}.

(** An element is shown unless its inline style hides it. *)
Definition visible (w : World) (b : element) : bool :=
  negb (JsString.eqb (display w b) (lit "none")).

(** ** Asynchronous handlers as effect trees *)

(** The object [fetch] resolves to, as far as the program looks at it. *)
Record Response : Type := { ok : bool }.

(** A canvas, with what its [toDataURL] does for a MIME type: it returns a
    data URL, or throws (a [SecurityError] on a tainted canvas). *)
Record Canvas : Type := { toDataURL : jsstr -> completion jsstr }.

(** The options object passed to [html2canvas]. *)
Record Html2CanvasOptions : Type := {
  backgroundColor : jsstr;
  scale : Z;
  useCORS : bool;
  allowTaint : bool;
  width : Z;
  height : Z
}.

(** The promises the program awaits, indexed by what they resolve to. *)
Inductive request : Type -> Type :=
| Fetch (url : jsstr) : request Response
| ResponseJson (r : Response) : request json
| Html2Canvas (node : CardNode) (options : Html2CanvasOptions) : request Canvas.

(** What an observer of the page sees besides the state. *)
Inductive event : Type :=
| Issue {T : Type} (q : request T)
| ConsoleError (label : jsstr) (err : thrown)
| LinkClick (download href : jsstr).

(** The body of a handler. [Await] is a suspension point: the handler stops
    there and is resumed with the fulfilment value or the rejection reason
    of the promise. *)
Inductive Prog (A : Type) : Type :=
| Ret (a : A)
| Throw (t : thrown)
| Read (k : World -> Prog A)
| Write (f : World -> World) (k : Prog A)
| Emit (e : event) (k : Prog A)
| Await {T : Type} (q : request T) (k : completion T -> Prog A).
Arguments Ret {A} a.
Arguments Throw {A} t.
Arguments Read {A} k.
Arguments Write {A} f k.
Arguments Emit {A} e k.
Arguments Await {A T} q k.

Module Prog.

Fixpoint bind {A B} (p : Prog A) (f : A -> Prog B) : Prog B :=
  match p with
  | Ret a => f a
  | Throw t => Throw t
  | Read k => Read (fun w => bind (k w) f)
  | Write g k => Write g (bind k f)
  | Emit e k => Emit e (bind k f)
  | Await q k => Await q (fun r => bind (k r) f)
  end.

(** [try { p } catch (err) { h err }] *)
Fixpoint try_catch {A} (p : Prog A) (h : thrown -> Prog A) : Prog A :=
  match p with
  | Ret a => Ret a
  | Throw t => h t
  | Read k => Read (fun w => try_catch (k w) h)
  | Write g k => Write g (try_catch k h)
  | Emit e k => Emit e (try_catch k h)
  | Await q k => Await q (fun r => try_catch (k r) h)
  end.

(** [try { p } finally { fin }] : [fin] runs on both exits and the completion
    of [p] is kept, unless [fin] throws itself. *)
Fixpoint try_finally {A} (p : Prog A) (fin : Prog unit) : Prog A :=
  match p with
  | Ret a => bind fin (fun _ => Ret a)
  | Throw t => bind fin (fun _ => Throw t)
  | Read k => Read (fun w => try_finally (k w) fin)
  | Write g k => Write g (try_finally k fin)
  | Emit e k => Emit e (try_finally k fin)
  | Await q k => Await q (fun r => try_finally (k r) fin)
  end.

(** [await q] : the value of a fulfilled promise; a rejection is thrown. *)
Definition await {T} (q : request T) : Prog T :=
  Await q (fun r => match r with Normal v => Ret v | Abrupt t => Throw t end).

(** An expression that may throw. *)
Definition eval {A} (c : completion A) : Prog A :=
  match c with Normal a => Ret a | Abrupt t => Throw t end.

Definition write (f : World -> World) : Prog unit := Write f (Ret tt).
Definition emit (e : event) : Prog unit := Emit e (Ret tt).

End Prog.

Declare Scope prog_scope.
Delimit Scope prog_scope with prog.
Notation "x <- p ;; q" := (Prog.bind p (fun x => q))
  (at level 61, p at next level, right associativity) : prog_scope.
Notation "p ;; q" := (Prog.bind p (fun _ => q))
  (at level 61, right associativity) : prog_scope.
Notation "'try' p 'catch' h 'finally' f" :=
  (Prog.try_finally (Prog.try_catch p h) f)
  (at level 62, p at level 61, h at level 9, f at level 61) : prog_scope.

(** *** Running a handler *)

(** How the promises settle. *)
Definition environment := forall T : Type, request T -> completion T.

(** The handler run to its end against an environment: the final world, the
    events in order, and how the handler completed. *)
Fixpoint run (env : environment) {A} (p : Prog A) (w : World)
  : World * list event * completion A :=
  match p with
  | Ret a => (w, [], Normal a)
  | Throw t => (w, [], Abrupt t)
  | Read k => run env (k w) w
  | Write f k => run env k (f w)
  | Emit e k => let '(w', tr, c) := run env k w in (w', e :: tr, c)
  | Await q k =>
      let '(w', tr, c) := run env (k (env _ q)) w in (w', Issue q :: tr, c)
  end.

(** The worlds in which the handler is suspended, in order: what the page
    shows while a promise is pending. *)
Fixpoint suspensions (env : environment) {A} (p : Prog A) (w : World)
  : list World :=
  match p with
  | Ret _ | Throw _ => []
  | Read k => suspensions env (k w) w
  | Write f k => suspensions env k (f w)
  | Emit _ k => suspensions env k w
  | Await q k => w :: suspensions env (k (env _ q)) w
  end.

(** The handler run up to its first suspension point. *)
Inductive progress (A : Type) : Type :=
| Done (c : completion A)
| Suspended {T : Type} (q : request T) (k : completion T -> Prog A).
Arguments Done {A} c.
Arguments Suspended {A T} q k.

Fixpoint start {A} (p : Prog A) (w : World) : World * list event * progress A :=
  match p with
  | Ret a => (w, [], Done (Normal a))
  | Throw t => (w, [], Done (Abrupt t))
  | Read k => start (k w) w
  | Write f k => start k (f w)
  | Emit e k => let '(w', tr, c) := start k w in (w', e :: tr, c)
  | Await q k => (w, [Issue q], Suspended q k)
  end.

(** The URLs of the outbound requests in a trace. *)
Fixpoint fetched (tr : list event) : list jsstr :=
  match tr with
  | [] => []
  | @Issue _ (Fetch url) :: tr' => url :: fetched tr'
  | _ :: tr' => fetched tr'
  end.

(** ** The component [App] *)

Module App.

Local Open Scope prog_scope.

(** *** State setters *)

Definition with_state (f : State -> State) (w : World) : World :=
  {| state := f (state w); statsCardRef := statsCardRef w; display := display w |}.

Definition setWalletAddress (v : jsstr) : Prog unit :=
  Prog.write (with_state (fun s =>
    {| walletAddress := v; stats := stats s; loading := loading s;
       error := error s; isGeneratingImage := isGeneratingImage s |})).

Definition setStats (v : json) : Prog unit :=
  Prog.write (with_state (fun s =>
    {| walletAddress := walletAddress s; stats := v; loading := loading s;
       error := error s; isGeneratingImage := isGeneratingImage s |})).

Definition setLoading (v : bool) : Prog unit :=
  Prog.write (with_state (fun s =>
    {| walletAddress := walletAddress s; stats := stats s; loading := v;
       error := error s; isGeneratingImage := isGeneratingImage s |})).

Definition setError (v : jsstr) : Prog unit :=
  Prog.write (with_state (fun s =>
    {| walletAddress := walletAddress s; stats := stats s; loading := loading s;
       error := v; isGeneratingImage := isGeneratingImage s |})).

Definition setIsGeneratingImage (v : bool) : Prog unit :=
  Prog.write (with_state (fun s =>
    {| walletAddress := walletAddress s; stats := stats s; loading := loading s;
       error := error s; isGeneratingImage := v |})).

(** [el.style.display = v] *)
Definition set_display (el : element) (v : jsstr) : Prog unit :=
  Prog.write (fun w =>
    {| state := state w; statsCardRef := statsCardRef w;
       display := fun x => if Nat.eqb x el then v else display w x |}).

(** *** Pure helpers *)

(** [/^0x[a-fA-F0-9]{40}$/.test(address)] : the whole string is [0x]
    followed by exactly forty hexadecimal digits. *)
Definition isValidAddress (address : jsstr) : bool :=
  match address with
  | c0 :: c1 :: digits =>
      (c0 =? 48)%N && (c1 =? 120)%N
      && Nat.eqb (List.length digits) 40 && forallb is_hex_digit digits
  | _ => false
  end.

(** The argument of [formatNumber], of type [number | string]. *)
Inductive num_or_string : Type :=
| Num (x : number)
| Str (s : jsstr).

(** [typeof num === "string" ? parseFloat(num) : num] *)
Definition to_number (num : num_or_string) : number :=
  match num with
  | Str s => parseFloat s
  | Num x => x
  end.

Definition formatNumber (num : num_or_string) : completion jsstr :=
  let number := to_number num in
  if geb number (of_Z 1000000) then
    completion_map (fun s => s ++ lit "M") (toFixed (div number (of_Z 1000000)) 2)
  else if geb number (of_Z 1000) then
    completion_map (fun s => s ++ lit "K") (toFixed (div number (of_Z 1000)) 2)
  else toFixed number 2.

(** The fee cell of the card:
    [formatNumber(parseFloat(stats.total_volume) * 0.01)]. *)
Definition fee_cell (s : WalletStats) : completion jsstr :=
  formatNumber (Num (mul (parseFloat (total_volume s)) (of_decimal false 1 (-2)))).

(** The volume cell: [formatNumber(stats.total_volume)]. *)
Definition volume_cell (s : WalletStats) : completion jsstr :=
  formatNumber (Str (total_volume s)).

(** *** fetchWalletStats *)

Definition api_url (address : jsstr) : jsstr :=
  lit "https://donkey-api.liquidlaunch.app/api/wallet/" ++ address.

(** [err instanceof Error ? err.message : "An error occurred"] *)
Definition error_text (err : thrown) : jsstr :=
  match err with
  | ErrorObject _ message => message
  | OtherValue => lit "An error occurred"
  end.

(** The function closes over the [walletAddress] of the render in which it
    was created. *)
Definition fetchWalletStats (walletAddress : jsstr) : Prog unit :=
  if negb (JsString.truthy (trim walletAddress)) then
    setError (lit "Please enter a wallet address")
  else if negb (isValidAddress (trim walletAddress)) then
    setError (lit "Please enter a valid Ethereum wallet address")
  else
    setLoading true ;;
    setError [] ;;
    setStats JNull ;;
    (try
      (response <- Prog.await (Fetch (api_url (trim walletAddress))) ;;
       (if negb (ok response) then
          Throw (ErrorObject (lit "Error") (lit "Failed to fetch wallet statistics"))
        else Ret tt) ;;
       data <- Prog.await (ResponseJson response) ;;
       setStats data)
    catch (fun err => setError (error_text err))
    finally (setLoading false)).

(** [handleSubmit] : after [e.preventDefault()], which changes nothing
    here, [fetchWalletStats] is called with the state of the current
    render. *)
Definition handleSubmit : Prog unit :=
  Read (fun w => fetchWalletStats (walletAddress (state w))).

(** *** downloadStatsImage *)

Definition png_options (card : CardNode) : Html2CanvasOptions :=
  {| backgroundColor := lit "#000000";
     scale := 2;
     useCORS := true;
     allowTaint := true;
     width := offsetWidth card;
     height := offsetHeight card |}.

(** [`wallet-stats-${stats.address.slice(0, 8)}.png`] *)
Definition download_name (stats : json) : completion jsstr :=
  completion_map
    (fun v => lit "wallet-stats-" ++ Json.ToString v ++ lit ".png")
    (Json.slice0 8 (Json.get (lit "address") stats)).

(** The function closes over the [stats] of the render in which it was
    created; [statsCardRef.current] is read when the code reaches it. *)
Definition downloadStatsImage (stats : json) : Prog unit :=
  Read (fun w0 =>
    match statsCardRef w0 with
    | None => Ret tt
    | Some card0 =>
        if negb (Json.truthy stats) then Ret tt
        else
          setIsGeneratingImage true ;;
          let saveButton := saveButton card0 in
          match saveButton with
          | Some b => set_display b (lit "none")
          | None => Ret tt
          end ;;
          (try
            (Read (fun w1 =>
               match statsCardRef w1 with
               | None =>
                   Throw (Json.type_error
                            "Cannot read properties of null (reading 'offsetWidth')")
               | Some card =>
                   canvas <- Prog.await (Html2Canvas card (png_options card)) ;;
                   download <- Prog.eval (download_name stats) ;;
                   href <- Prog.eval (toDataURL canvas (lit "image/png")) ;;
                   Prog.emit (LinkClick download href)
               end))
          catch (fun error =>
                   Prog.emit (ConsoleError (lit "Error generating image:") error))
          finally (match saveButton with
                   | Some b => set_display b (lit "flex")
                   | None => Ret tt
                   end ;;
                   setIsGeneratingImage false))
    end).

(** The click handler of the save button, with the state of the current
    render. *)
Definition handleSaveClick : Prog unit :=
  Read (fun w => downloadStatsImage (stats (state w))).

End App.

(** ** The wording of the specification, for comparison *)

Module Spec.

(** [formatNumber] with its thresholds on the magnitude of the value. *)
Definition formatNumber (num : App.num_or_string) : completion jsstr :=
  let x := App.to_number num in
  let magnitude := abs x in
  if geb magnitude (of_Z 1000000) then
    completion_map (fun s => s ++ lit "M") (toFixed (div x (of_Z 1000000)) 2)
  else if geb magnitude (of_Z 1000) then
    completion_map (fun s => s ++ lit "K") (toFixed (div x (of_Z 1000)) 2)
  else toFixed x 2.

(** The fraction [P/Q] to two decimal places, the nearest hundredth and the
    larger one on a tie, as [toFixed] chooses. *)
Definition two_decimals (P Q : Z) : jsstr :=
  fixed_digits ((2 * P * 100 + Q) / (2 * Q)) 2.

(** The abbreviation rule on an exact non-negative fraction. *)
Definition abbreviate (P Q : Z) : jsstr :=
  if 1000000 * Q <=? P then two_decimals P (Q * 1000000) ++ lit "M"
  else if 1000 * Q <=? P then two_decimals P (Q * 1000) ++ lit "K"
  else two_decimals P Q.

(** The estimated fee at arbitrary precision: the decimal string is read
    exactly, multiplied by 0.01 exactly, then abbreviated. Defined for the
    strings that denote a non-negative decimal. *)
Definition estimatedFee (total_volume : jsstr) : option jsstr :=
  match scan total_volume with
  | DecimalLiteral false d e =>
      let e' := e - 2 in
      Some (if 0 <=? e' then abbreviate (d * 10 ^ e') 1
            else abbreviate d (10 ^ (- e')))
  | _ => None
  end.

(** A string that begins, after white space and an optional sign, with a
    digit, with a point and a digit, or with [Infinity]. *)
Definition numeric_string (s : jsstr) : bool :=
  let u := snd (strip_sign (trimStart s)) in
  match strip_prefix (lit "Infinity") u with
  | Some _ => true
  | None =>
      match u with
      | c :: r =>
          is_digit c
          || (c =? 46)%N && match r with d :: _ => is_digit d | [] => false end
      | [] => false
      end
  end.

End Spec.

(** ** Environments and outcomes *)

(** An environment from what each kind of promise settles to. *)
Definition env_of (fetch : jsstr -> completion Response)
    (body : Response -> completion json)
    (capture : CardNode -> Html2CanvasOptions -> completion Canvas)
  : environment :=
  fun T q =>
    match q in request T return completion T with
    | Fetch url => fetch url
    | ResponseJson r => body r
    | Html2Canvas node options => capture node options
    end.

(** The ways a lookup of [url] fails, with the value that reaches the
    [catch] clause: the transport rejects, the status is not a success, or
    the body is not JSON. *)
Inductive fetch_failure (env : environment) (url : jsstr) : thrown -> Prop :=
| transport_failure (t : thrown) :
    env _ (Fetch url) = Abrupt t -> fetch_failure env url t
| status_failure (r : Response) :
    env _ (Fetch url) = Normal r -> ok r = false ->
    fetch_failure env url
      (ErrorObject (lit "Error") (lit "Failed to fetch wallet statistics"))
| body_failure (r : Response) (t : thrown) :
    env _ (Fetch url) = Normal r -> ok r = true ->
    env _ (ResponseJson r) = Abrupt t -> fetch_failure env url t.

(** A lookup of [url] that resolves with the parsed body [data]. *)
Definition fetch_success (env : environment) (url : jsstr) (data : json) : Prop :=
  exists r, env _ (Fetch url) = Normal r /\ ok r = true
            /\ env _ (ResponseJson r) = Normal data.

(** The text of the error banner after a rejected submission. *)
Definition rejection_text (a : jsstr) : jsstr :=
  if JsString.truthy (trim a) then lit "Please enter a valid Ethereum wallet address"
  else lit "Please enter a wallet address".

(** What the [try] block of the export computes: the file name and the data
    URL of the link, or the value thrown on the way. *)
Definition capture (env : environment) (card : CardNode) (stats : json)
  : completion (jsstr * jsstr) :=
  match env _ (Html2Canvas card (App.png_options card)) with
  | Abrupt t => Abrupt t
  | Normal canvas =>
      match App.download_name stats with
      | Abrupt t => Abrupt t
      | Normal download =>
          match toDataURL canvas (lit "image/png") with
          | Abrupt t => Abrupt t
          | Normal href => Normal (download, href)
          end
      end
  end.

(** What the user does, one handler at a time: typing into the input
    ([onChange]), submitting the form, clicking the save button. *)
Inductive action : Type :=
| TypeAddress (text : jsstr)
| Submit
| ClickSave.

Definition handler (a : action) : Prog unit :=
  match a with
  | TypeAddress text => App.setWalletAddress text
  | Submit => App.handleSubmit
  | ClickSave => App.handleSaveClick
  end.

(** The world after a handler has run to its end. *)
Definition after (env : environment) (a : action) (w : World) : World :=
  fst (fst (run env (handler a) w)).

(** ** The page: handlers interleaved at their suspension points

    The event loop runs one handler, or one resumed handler, at a time, up
    to its next suspension point. The handlers that are suspended wait in
    [pending]. What the user can start is limited by the [disabled]
    attributes of the markup: the input and the submit button are disabled
    while [loading] is set, the save button while [isGeneratingImage] is
    set, and the save button exists only when [stats] is truthy. *)

Inductive task : Type :=
| Pending {T : Type} (q : request T) (k : completion T -> Prog unit).

(** The promises of [fetchWalletStats], as opposed to the capture. *)
Definition is_lookup {T : Type} (q : request T) : bool :=
  match q with
  | Fetch _ | ResponseJson _ => true
  | Html2Canvas _ _ => false
  end.

Definition lookup_task (t : task) : bool :=
  match t with Pending q _ => is_lookup q end.

Record Page : Type := {
  world : World;
  pending : list task
}.

Definition initial_page : Page := {| world := initial_world; pending := [] |}.

(** A program run from [w] up to its first suspension point, next to the
    tasks that are already waiting. An exception that leaves a handler is
    an unhandled rejection: it changes nothing. *)
Definition dispatch (p : Prog unit) (w : World) (others : list task) : Page :=
  let '(w', _, pr) := start p w in
  {| world := w';
     pending := match pr with
                | Done _ => others
                | Suspended q k => Pending q k :: others
                end |}.

(** React commits a render: the ref follows the card that is mounted. *)
Definition commit (ref : option CardNode) (w : World) : World :=
  {| state := state w; statsCardRef := ref; display := display w |}.

Inductive step : Page -> Page -> Prop :=
| step_type (pg : Page) (text : jsstr) :
    loading (state (world pg)) = false ->
    step pg (dispatch (App.setWalletAddress text) (world pg) (pending pg))
| step_submit (pg : Page) :
    loading (state (world pg)) = false ->
    step pg (dispatch App.handleSubmit (world pg) (pending pg))
| step_save (pg : Page) :
    isGeneratingImage (state (world pg)) = false ->
    Json.truthy (stats (state (world pg))) = true ->
    step pg (dispatch App.handleSaveClick (world pg) (pending pg))
| step_settle (pg : Page) (T : Type) (q : request T)
    (k : completion T -> Prog unit) (r : completion T)
    (before after : list task) :
    pending pg = before ++ Pending q k :: after ->
    step pg (dispatch (k r) (world pg) (before ++ after))
| step_commit (pg : Page) (ref : option CardNode) :
    step pg {| world := commit ref (world pg); pending := pending pg |}.

Inductive reachable : Page -> Prop :=
| reachable_initial : reachable initial_page
| reachable_step (pg pg' : Page) : reachable pg -> step pg pg' -> reachable pg'.

(** The task that has waited longest is resumed with what the environment
    settles its promise to. *)
Definition settle_with (env : environment) (pg : Page) : Page :=
  match pending pg with
  | Pending q k :: rest => dispatch (k (env _ q)) (world pg) rest
  | [] => pg
  end.

(** Two worlds that show the same outcome of the query. *)
Definition same_query (w w' : World) : Prop :=
  loading (state w') = loading (state w)
  /\ error (state w') = error (state w)
  /\ stats (state w') = stats (state w).

(** The page while a lookup is in flight. *)
Definition in_flight (w : World) : Prop :=
  loading (state w) = true /\ error (state w) = [] /\ stats (state w) = JNull.

(** The page after a lookup has settled. *)
Definition settled (w : World) : Prop :=
  loading (state w) = false
  /\ (error (state w) = [] \/ stats (state w) = JNull).

(** *** A handler keeps to a protocol

    [safe] follows a program from a world: every write is within the
    guarantee [G]; the program suspends only on the requests [allowed], in
    worlds that satisfy [I]; it is resumed in any world that the rely [R]
    relates to the one it left; it ends in [Q] when it never suspended and
    in [Q'] when it did. *)
Section Protocol.

Variables G R : World -> World -> Prop.
Variable I : World -> Prop.
Variable allowed : forall T : Type, request T -> bool.

Fixpoint safe (Q Q' : World -> Prop) (p : Prog unit) (w : World) : Prop :=
  match p with
  | Ret _ | Throw _ => Q w
  | Read k => safe Q Q' (k w) w
  | Write f k => G w (f w) /\ safe Q Q' k (f w)
  | Emit _ k => safe Q Q' k w
  | @Await _ T q k =>
      allowed T q = true /\ I w
      /\ forall r w', R w w' -> safe Q' Q' (k r) w'
  end.

End Protocol.

(** The protocol of a lookup: it writes what it likes, relies on the others
    to keep the query as it is, and shows the loading state while
    suspended. *)
Definition lookup_safe : (World -> Prop) -> (World -> Prop) -> Prog unit -> World -> Prop :=
  safe (fun _ _ => True) same_query in_flight (@is_lookup).

(** The protocol of an export: it keeps the query as it is and relies on
    nothing. *)
Definition export_safe : Prog unit -> World -> Prop :=
  safe same_query (fun _ _ => True) (fun _ => True)
       (fun T q => negb (is_lookup q)) (fun _ => True) (fun _ => True).

(** What the page maintains about the tasks that wait. *)
Definition task_safe (w : World) (t : task) : Prop :=
  match t with
  | Pending q k =>
      if is_lookup q then
        in_flight w
        /\ forall r w', same_query w w' -> lookup_safe settled settled (k r) w'
      else forall r w', export_safe (k r) w'
  end.

Definition lookups (ts : list task) : nat :=
  List.length (filter lookup_task ts).

Record page_invariant (pg : Page) : Prop := {
  loading_is_in_flight :
    loading (state (world pg)) = true -> in_flight (world pg);
  tasks_are_safe : Forall (task_safe (world pg)) (pending pg);
  idle_without_lookup :
    loading (state (world pg)) = false -> lookups (pending pg) = 0%nat;
  one_lookup : (lookups (pending pg) <= 1)%nat
}.

(** ** What the component renders

    The conditions of the markup returned by [App] : which controls are
    disabled, what the submit and the save button say, and whether the
    error banner and the card are there. The layout is left out. *)

Module Render.

(** What [{stats && (<div ref={statsCardRef}> ... </div>)}] leaves in the
    page: nothing for [null], [false] and the empty string; the text of a
    falsy number; otherwise the card, with its save button. *)
Inductive card_slot : Type :=
| NoCard
| StrayText (text : jsstr)
| Card (stats : json) (save_disabled : bool) (save_label : jsstr).

Record View : Type := {
  input_value : jsstr;
  input_disabled : bool;
  submit_disabled : bool;
  submit_label : jsstr;
  error_banner : option jsstr;
  card : card_slot
}.

Definition view (s : State) : View :=
  {| input_value := walletAddress s;
     input_disabled := loading s;
     submit_disabled := loading s || negb (JsString.truthy (trim (walletAddress s)));
     submit_label := if loading s then lit "Analyzing..." else lit "Analyze";
     error_banner := if JsString.truthy (error s) then Some (error s) else None;
     card :=
       if Json.truthy (stats s) then
         Card (stats s) (isGeneratingImage s)
              (if isGeneratingImage s then lit "Saving..." else lit "Save Image")
       else
         match stats s with
         | JNumber x => StrayText (JsNumber.toString x)
         | _ => NoCard
         end |}.

End Render.

(** ** One request of each kind at a time

    The same protocol, read for an in-progress flag: the handler that owns
    the flag sets it before it suspends and clears it when it ends, and
    relies on the others to keep it; the others keep it and suspend only on
    their own requests. *)
Section SingleFlight.

(** The requests of the handler that owns the flag, and the flag. *)
Variable own : forall T : Type, request T -> bool.
Variable flag : World -> bool.

Definition keeps_flag (w w' : World) : Prop := flag w' = flag w.

Definition owner_safe : (World -> Prop) -> Prog unit -> World -> Prop :=
  fun Q =>
    safe (fun _ _ => True) keeps_flag (fun w => flag w = true) own
         Q (fun w => flag w = false).

Definition other_safe : Prog unit -> World -> Prop :=
  safe keeps_flag (fun _ _ => True) (fun _ => True)
       (fun T q => negb (own T q)) (fun _ => True) (fun _ => True).

(** A handler either keeps the flag, or owns it and is started while the
    flag is cleared. *)
Definition handler_ok (p : Prog unit) (w : World) : Prop :=
  other_safe p w
  \/ (flag w = false /\ owner_safe (fun w' => flag w' = false) p w).

Definition own_task (t : task) : bool :=
  match t with Pending q _ => own _ q end.

Definition flight_task_safe (w : World) (t : task) : Prop :=
  match t with
  | @Pending T q k =>
      if own T q then
        flag w = true
        /\ forall r w', keeps_flag w w' ->
                        owner_safe (fun w => flag w = false) (k r) w'
      else forall r w', other_safe (k r) w'
  end.

Definition in_flight_count (ts : list task) : nat :=
  List.length (filter own_task ts).

Record flight_invariant (pg : Page) : Prop := {
  flight_tasks_safe : Forall (flight_task_safe (world pg)) (pending pg);
  flight_idle : flag (world pg) = false -> in_flight_count (pending pg) = 0%nat;
  flight_busy : flag (world pg) = true -> in_flight_count (pending pg) = 1%nat
}.

End SingleFlight.

(** The requests of the export, and the tasks that wait on one. *)
Definition is_capture {T : Type} (q : request T) : bool := negb (is_lookup q).

Definition captures (ts : list task) : nat :=
  in_flight_count (@is_capture) ts.

(** The in-progress flags of the lookup and of the export. *)
Definition loading_flag (w : World) : bool := loading (state w).
Definition exporting_flag (w : World) : bool := isGeneratingImage (state w).

(** The links clicked in a trace, each with its file name and its target,
    and the values logged with [console.error]. *)
Fixpoint clicked (tr : list event) : list (jsstr * jsstr) :=
  match tr with
  | [] => []
  | LinkClick download href :: tr' => (download, href) :: clicked tr'
  | _ :: tr' => clicked tr'
  end.

Fixpoint logged (tr : list event) : list thrown :=
  match tr with
  | [] => []
  | ConsoleError _ err :: tr' => err :: logged tr'
  | _ :: tr' => logged tr'
  end.

(** ** Coming to rest

    How many more times a handler suspends after one of its promises has
    settled: once after the fetch, for the body; never after the body or
    after the capture. *)
Definition remaining {T : Type} (q : request T) : nat :=
  match q with
  | Fetch _ => 1
  | ResponseJson _ | Html2Canvas _ _ => 0
  end.

(** Each promise that [p] awaits has fewer suspensions after it than the
    bound before it, from [n] down. *)
Fixpoint settles_within (n : nat) (p : Prog unit) : Prop :=
  match p with
  | Ret _ | Throw _ => True
  | Read k => forall w, settles_within n (k w)
  | Write _ k | Emit _ k => settles_within n k
  | Await q k =>
      (remaining q < n)%nat /\ forall r, settles_within (remaining q) (k r)
  end.

Definition ranked (t : task) : Prop :=
  match t with Pending q k => forall r, settles_within (remaining q) (k r) end.

(** The number of settlements that the waiting tasks can still take. *)
Fixpoint debt (ts : list task) : nat :=
  match ts with
  | [] => 0
  | Pending q _ :: ts' => S (remaining q + debt ts')
  end.

(** One promise settles, with any result and in any order, and its handler
    runs on to its next suspension point; and [n] of them in a row, the user
    doing nothing meanwhile. *)
Inductive settlement : Page -> Page -> Prop :=
| settlement_of (pg : Page) (T : Type) (q : request T)
    (k : completion T -> Prog unit) (r : completion T)
    (before after : list task) :
    pending pg = before ++ Pending q k :: after ->
    settlement pg (dispatch (k r) (world pg) (before ++ after)).

Inductive settlements : nat -> Page -> Page -> Prop :=
| settlements_none (pg : Page) : settlements 0 pg pg
| settlements_more (n : nat) (pg pg' pg'' : Page) :
    settlement pg pg' -> settlements n pg' pg'' ->
    settlements (S n) pg pg''.

(** ** Sample data *)

Module Sample.

(** The response of the project's README. *)
Definition readme_stats : WalletStats :=
  {| address := lit "0xABCABCABCABCABCABCABCABCABCABCABCABCABCA";
     total_volume := lit "824.309202265870747275";
     total_trades := of_Z 142;
     buy_count := of_Z 85;
     sell_count := of_Z 57;
     first_trade := of_Z 1749666804;
     last_trade := of_Z 1750444284 |}.

(** A volume with more digits than a binary64 value keeps. *)
Definition long_volume_stats : WalletStats :=
  {| address := address readme_stats;
     total_volume := lit "1.50000000000000004";
     total_trades := of_Z 1;
     buy_count := of_Z 1;
     sell_count := of_Z 0;
     first_trade := of_Z 1749666804;
     last_trade := of_Z 1749666804 |}.

Definition valid_address : jsstr := address readme_stats.

(** The same address as typed with a space in front. *)
Definition padded_address : jsstr := 32%N :: valid_address.

Definition png_canvas : Canvas :=
  {| toDataURL := fun _ => Normal (lit "data:image/png;base64,iVBORw0KGgo=") |}.

(** The collaborator answers every lookup with [data]; the capture works. *)
Definition env_answering (data : json) : environment :=
  env_of (fun _ => Normal {| ok := true |})
         (fun _ => Normal data)
         (fun _ _ => Normal png_canvas).

(** The collaborator is unreachable and the capture fails. *)
Definition env_failing : environment :=
  env_of (fun _ => Abrupt (ErrorObject (lit "TypeError") (lit "Failed to fetch")))
         (fun _ => Abrupt (ErrorObject (lit "SyntaxError") (lit "Unexpected end of JSON input")))
         (fun _ _ => Abrupt OtherValue).

Definition world_typing (text : jsstr) : World :=
  after env_failing (TypeAddress text) initial_world.

(** A world in which the card of [readme_stats] is shown, with its save
    button being element 7. *)
Definition readme_card : CardNode :=
  {| offsetWidth := 672; offsetHeight := 540; saveButton := Some 7%nat |}.

Definition world_loaded : World :=
  {| state := {| walletAddress := valid_address;
                 stats := json_of_WalletStats readme_stats;
                 loading := false; error := [];
                 isGeneratingImage := false |};
     statsCardRef := Some readme_card;
     display := fun _ => [] |}.

(** The page after the address has been typed, and after it has been
    submitted. *)
Definition page_typed : Page :=
  dispatch (App.setWalletAddress valid_address)
           (world initial_page) (pending initial_page).

Definition page_loading : Page :=
  dispatch App.handleSubmit (world page_typed) (pending page_typed).

(** The page after the collaborator has answered with the stats of the
    README: first the response, then its body. *)
Definition page_loaded : Page :=
  settle_with (env_answering (json_of_WalletStats readme_stats))
    (settle_with (env_answering (json_of_WalletStats readme_stats)) page_loading).

(** The page after [abc] has then been typed, and after it has been
    submitted. *)
Definition page_retyped : Page :=
  dispatch (App.setWalletAddress (lit "abc"))
           (world page_loaded) (pending page_loaded).

Definition page_rejected : Page :=
  dispatch App.handleSubmit (world page_retyped) (pending page_retyped).


(** The page after the card of the README has been mounted, and after its
    save button has been clicked. *)
Definition page_mounted : Page :=
  {| world := commit (Some readme_card) (world page_loaded);
     pending := pending page_loaded |}.

Definition page_exporting : Page :=
  dispatch App.handleSaveClick (world page_mounted) (pending page_mounted).

End Sample.

(** * Properties *)

(** ** Formatting of numbers *)

Section Formatting.

Import App.

Lemma of_Z_million : of_Z 1000000 = S754_finite false 8589934592000000 (-33).
Proof. vm_compute. reflexivity. Qed.

Lemma of_Z_thousand : of_Z 1000 = S754_finite false 8796093022208000 (-43).
Proof. vm_compute. reflexivity. Qed.

(** The literal [0.01] of the source is the Number read from its digits. *)
Lemma literal_hundredth : of_decimal false 1 (-2) = parseFloat (lit "0.01").
Proof. vm_compute. reflexivity. Qed.

(** The numeric literals of the source are canonical binary64 values. *)
Lemma literals_valid :
  valid (of_Z 1000000) && valid (of_Z 1000) && valid (of_decimal false 1 (-2))
  = true.
Proof. vm_compute. reflexivity. Qed.

(** The two cells of the card for the response of the README. *)
Example readme_cells :
  volume_cell Sample.readme_stats = Normal (lit "824.31")
  /\ fee_cell Sample.readme_stats = Normal (lit "8.24").
Proof. vm_compute. split; reflexivity. Qed.

(** Two fraction digits are within the range of [toFixed] : it returns. *)
Lemma toFixed_2_returns (x : number) : exists r, toFixed x 2 = Normal r.
Proof.
  unfold toFixed.
  change ((2 <? 0) || (100 <? 2)) with false. cbv iota.
  destruct x as [s | s | | s m e]; try (eexists; reflexivity).
  destruct (ratio m e) as [P Q].
  destruct (10 ^ 21 * Q <=? P); eexists; reflexivity.
Qed.

(** Printed with two fraction digits, a numeral has a non-empty integer
    part, a point, and two digits. *)
Lemma fixed_digits_two (n : Z) :
  exists ip fp,
    fixed_digits n 2 = ip ++ lit "." ++ fp
    /\ List.length fp = 2%nat /\ (1 <= List.length ip)%nat.
Proof.
  unfold fixed_digits. change (2 =? 0) with false. cbv iota zeta.
  set (m := digits_of n).
  set (m' := if Z.of_nat (List.length m) <=? 2
             then zeros (2 + 1 - Z.of_nat (List.length m)) ++ m else m).
  assert (Hlen : (3 <= List.length m')%nat).
  { subst m'. destruct (Z.leb_spec (Z.of_nat (List.length m)) 2).
    - rewrite length_app. unfold zeros. rewrite repeat_length. lia.
    - lia. }
  exists (firstn (Z.to_nat (Z.of_nat (List.length m') - 2)) m'),
         (skipn (Z.to_nat (Z.of_nat (List.length m') - 2)) m').
  split; [reflexivity|]. rewrite length_skipn, length_firstn. lia.
Qed.

Lemma ratio_positive (m : positive) (e : Z) :
  0 < fst (ratio m e) /\ 0 < snd (ratio m e).
Proof.
  unfold ratio. destruct (Z.leb_spec 0 e); cbn [fst snd].
  - split; [|lia]. apply Z.mul_pos_pos; [lia|]. apply Z.pow_pos_nonneg; lia.
  - split; [lia|]. apply Z.pow_pos_nonneg; lia.
Qed.

(** A finite value below [10^21] in magnitude prints, with its sign, as the
    integer [n] nearest to a hundred times the magnitude [P/Q], the larger
    one on a tie, with two digits after the point. *)
Lemma toFixed_2_nearest (s : bool) (m : positive) (e : Z) :
  fst (ratio m e) < 10 ^ 21 * snd (ratio m e) ->
  exists n,
    toFixed (S754_finite s m e) 2
    = Normal ((if s then lit "-" else []) ++ fixed_digits n 2)
    /\ 2 * snd (ratio m e) * n <= 200 * fst (ratio m e) + snd (ratio m e)
       < 2 * snd (ratio m e) * (n + 1).
Proof.
  intros Hsmall. destruct (ratio_positive m e) as [HP HQ].
  unfold toFixed. change ((2 <? 0) || (100 <? 2)) with false. cbv iota.
  destruct (ratio m e) as [P Q]. cbn [fst snd] in *.
  destruct (Z.leb_spec (10 ^ 21 * Q) P) as [Hbig|_]; [lia|].
  exists ((2 * P * 10 ^ 2 + Q) / (2 * Q)). split; [reflexivity|].
  change (10 ^ 2) with 100.
  pose proof (Z.div_mod (2 * P * 100 + Q) (2 * Q) ltac:(lia)) as Hdiv.
  pose proof (Z.mod_pos_bound (2 * P * 100 + Q) (2 * Q) ltac:(lia)) as Hmod.
  nia.
Qed.

Lemma formatNumber_returns (num : num_or_string) :
  exists r, formatNumber num = Normal r.
Proof.
  unfold formatNumber.
  destruct (geb (to_number num) (of_Z 1000000)).
  - destruct (toFixed_2_returns (div (to_number num) (of_Z 1000000))) as [r ->].
    eexists; reflexivity.
  - destruct (geb (to_number num) (of_Z 1000)).
    + destruct (toFixed_2_returns (div (to_number num) (of_Z 1000))) as [r ->].
      eexists; reflexivity.
    + apply toFixed_2_returns.
Qed.

(** A negative value is below every positive threshold. *)
Lemma negative_below (x : number) (m : positive) (e : Z) :
  ltb x zero = true -> geb x (S754_finite false m e) = false.
Proof.
  unfold ltb, geb, SFltb, SFleb, zero.
  destruct x as [s | [|] | | [|] mx ex]; simpl; congruence.
Qed.

(** On a value that is not negative, the magnitude compares as the value. *)
Lemma geb_abs (x c : number) :
  ltb x zero = false -> geb (abs x) c = geb x c.
Proof.
  unfold ltb, geb, SFltb, SFleb, zero, abs.
  destruct x as [s | [|] | | [|] mx ex]; simpl; try congruence;
    destruct c as [t | [|] | | [|] mc ec]; simpl; congruence.
Qed.

(** Without a numeric prefix, nothing is read. *)
Lemma span_digits_no_digit (c : char16) (r : jsstr) :
  is_digit c = false -> span_digits (c :: r) = ([], c :: r).
Proof. intros H. simpl. rewrite H. reflexivity. Qed.

Lemma scan_not_numeric (s : jsstr) :
  Spec.numeric_string s = false -> scan s = NotANumber.
Proof.
  unfold Spec.numeric_string, scan.
  destruct (strip_sign (trimStart s)) as [neg u]. simpl snd.
  unfold scan_unsigned.
  destruct (strip_prefix (lit "Infinity") u); [discriminate|].
  destruct u as [|c r]; [reflexivity|].
  intros H. apply orb_false_iff in H. destruct H as [Hc Hdot].
  rewrite (span_digits_no_digit c r Hc).
  destruct (c =? 46)%N; [|reflexivity].
  destruct r as [|d r']; [reflexivity|].
  simpl in Hdot. rewrite (span_digits_no_digit d r' Hdot). reflexivity.
Qed.

Lemma parseFloat_not_numeric (s : jsstr) :
  Spec.numeric_string s = false -> parseFloat s = NaN.
Proof. intros H. unfold parseFloat. rewrite (scan_not_numeric s H). reflexivity. Qed.

Lemma formatNumber_NaN : formatNumber (Num NaN) = Normal (lit "NaN").
Proof. vm_compute. reflexivity. Qed.

End Formatting.

(** ** The claims on [formatNumber] and on the fee cell *)

(** C6, as stated, fails: the thresholds are on the value, not on its
    magnitude. [formatNumber(-2500000)] has magnitude 2,500,000 and is
    printed as ["-2500000.00"], where the magnitude rule gives ["-2.50M"]. *)
Lemma formatNumber_negative_not_abbreviated :
  geb (abs (of_Z (-2500000))) (of_Z 1000000) = true
  /\ App.formatNumber (App.Num (of_Z (-2500000))) = Normal (lit "-2500000.00")
  /\ Spec.formatNumber (App.Num (of_Z (-2500000))) = Normal (lit "-2.50M")
  /\ App.formatNumber (App.Num (of_Z (-2500000)))
     <> Spec.formatNumber (App.Num (of_Z (-2500000))).
Proof. vm_compute. repeat split; try reflexivity. discriminate. Qed.

(** C6 (amended). For every input, number or string, with value [x] :
    when [x] is not negative, [formatNumber] is the magnitude rule of the
    specification, [(x / 1000000).toFixed(2) + "M"] from 1,000,000 on,
    [(x / 1000).toFixed(2) + "K"] from 1,000 on and below 1,000,000, and
    [x.toFixed(2)] otherwise; when [x] is negative it is [x.toFixed(2)]
    whatever the magnitude. In particular 950 gives ["950.00"], 1500 gives
    ["1.50K"] and 2500000 gives ["2.50M"]. *)
Theorem formatNumber_abbreviation (num : App.num_or_string) :
  App.formatNumber num
  = (if ltb (App.to_number num) zero then toFixed (App.to_number num) 2
     else Spec.formatNumber num)
  /\ App.formatNumber (App.Num (of_Z 950)) = Normal (lit "950.00")
  /\ App.formatNumber (App.Num (of_Z 1500)) = Normal (lit "1.50K")
  /\ App.formatNumber (App.Num (of_Z 2500000)) = Normal (lit "2.50M").
Proof.
  split; [|vm_compute; repeat split; reflexivity].
  unfold App.formatNumber, Spec.formatNumber.
  destruct (ltb (App.to_number num) zero) eqn:Hneg.
  - rewrite of_Z_million, of_Z_thousand.
    rewrite !(negative_below _ _ _ Hneg). reflexivity.
  - rewrite !(geb_abs _ _ Hneg). reflexivity.
Qed.

(** C9. For every string, [formatNumber] returns a string and does not
    throw; a string without a numeric prefix gives ["NaN"]. *)
Theorem formatNumber_string_returns (s : jsstr) :
  (exists r, App.formatNumber (App.Str s) = Normal r)
  /\ (Spec.numeric_string s = false ->
      App.formatNumber (App.Str s) = Normal (lit "NaN")).
Proof.
  split; [apply formatNumber_returns|].
  intros H. unfold App.formatNumber, App.to_number.
  rewrite (parseFloat_not_numeric s H). exact formatNumber_NaN.
Qed.

Lemma formatNumber_string_returns_witness :
  Spec.numeric_string (lit "abc") = false
  /\ App.formatNumber (App.Str (lit "abc")) = Normal (lit "NaN").
Proof.
  split; [reflexivity|].
  apply (proj2 (formatNumber_string_returns (lit "abc"))). reflexivity.
Defined.

(** C7, as stated, fails: the volume is not read at arbitrary precision.
    For the volume ["1.50000000000000004"] the exact fee is
    0.0150000000000000004, which prints as ["0.02"], also when the exact
    product is handed to [formatNumber] as a decimal string; the cell shows
    ["0.01"], because [parseFloat] reads the volume as 1.5. *)
Lemma fee_cell_not_arbitrary_precision :
  Spec.estimatedFee (total_volume Sample.long_volume_stats) = Some (lit "0.02")
  /\ App.formatNumber (App.Str (lit "0.0150000000000000004")) = Normal (lit "0.02")
  /\ parseFloat (total_volume Sample.long_volume_stats) = parseFloat (lit "1.5")
  /\ App.fee_cell Sample.long_volume_stats = Normal (lit "0.01").
Proof. vm_compute. repeat split; reflexivity. Qed.

(** C7 (amended). For every WalletStats the fee cell is [formatNumber] of
    the binary64 product of [parseFloat(total_volume)] and the binary64
    constant [0.01] : the decimal string is rounded to the nearest Number
    first. The cell never throws, and for the volume
    ["824.309202265870747275"] it shows ["8.24"]. *)
Theorem fee_cell_binary64 (s : WalletStats) :
  App.fee_cell s
  = App.formatNumber
      (App.Num (mul (parseFloat (total_volume s)) (parseFloat (lit "0.01"))))
  /\ (exists r, App.fee_cell s = Normal r)
  /\ (total_volume s = lit "824.309202265870747275" ->
      App.fee_cell s = Normal (lit "8.24")).
Proof.
  unfold App.fee_cell. rewrite literal_hundredth.
  split; [reflexivity|]. split; [apply formatNumber_returns|].
  intros ->. vm_compute. reflexivity.
Qed.

Lemma fee_cell_binary64_witness :
  total_volume Sample.readme_stats = lit "824.309202265870747275"
  /\ App.fee_cell Sample.readme_stats = Normal (lit "8.24").
Proof.
  split; [reflexivity|].
  apply (proj2 (proj2 (fee_cell_binary64 Sample.readme_stats))). reflexivity.
Defined.

(** ** The controller *)

#[local] Arguments lit : simpl never.
#[local] Arguments App.api_url : simpl never.
#[local] Arguments trim : simpl never.

(** Case analysis on how the promises of a run settle. *)
Ltac settle env :=
  repeat match goal with
         | |- context [env Response ?q] =>
             let E := fresh "Efetch" in
             destruct (env Response q) as [[[|]]|?] eqn:E; cbn
         | |- context [env json ?q] =>
             let E := fresh "Ebody" in
             destruct (env json q) as [?|?] eqn:E; cbn
         | |- context [env Canvas ?q] =>
             let E := fresh "Ecanvas" in
             destruct (env Canvas q) as [?|?] eqn:E; cbn
         end.

Section Controller.

Variable env : environment.

Lemma valid_address_not_empty (a : jsstr) :
  App.isValidAddress a = true -> JsString.truthy a = true.
Proof. destruct a as [|c0 [|c1 r]]; simpl; congruence. Qed.

(** The three ways [fetchWalletStats] goes on from its two tests. *)
Lemma fetchWalletStats_empty (a : jsstr) :
  JsString.truthy (trim a) = false ->
  App.fetchWalletStats a = App.setError (lit "Please enter a wallet address").
Proof. intros H. unfold App.fetchWalletStats. rewrite H. reflexivity. Qed.

Lemma fetchWalletStats_invalid (a : jsstr) :
  JsString.truthy (trim a) = true -> App.isValidAddress (trim a) = false ->
  App.fetchWalletStats a
  = App.setError (lit "Please enter a valid Ethereum wallet address").
Proof. intros H1 H2. unfold App.fetchWalletStats. rewrite H1, H2. reflexivity. Qed.

Lemma fetchWalletStats_rejects (a : jsstr) :
  App.isValidAddress (trim a) = false ->
  App.fetchWalletStats a = App.setError (rejection_text a).
Proof.
  intros H. unfold rejection_text.
  destruct (JsString.truthy (trim a)) eqn:E.
  - now apply fetchWalletStats_invalid.
  - now apply fetchWalletStats_empty.
Qed.

Lemma rejection_text_not_empty (a : jsstr) : rejection_text a <> [].
Proof. unfold rejection_text. destruct (JsString.truthy (trim a)); discriminate. Qed.

(** The message shown for a fault is empty only when the fault is an
    [Error] whose own message is empty. *)
Lemma error_text_empty (t : thrown) :
  App.error_text t = [] -> exists name, t = ErrorObject name [].
Proof.
  destruct t as [name message|]; simpl; [|discriminate].
  intros ->. now exists name.
Qed.

(** While a submission is suspended the page shows the loading state with
    neither stats nor error, whatever the input was. *)
Lemma submit_in_flight (w w1 : World) :
  In w1 (suspensions env App.handleSubmit w) ->
  loading (state w1) = true /\ stats (state w1) = JNull /\ error (state w1) = [].
Proof.
  unfold App.handleSubmit. cbn [suspensions].
  destruct (App.isValidAddress (trim (walletAddress (state w)))) eqn:Hv.
  - pose proof (valid_address_not_empty _ Hv) as Ht.
    unfold App.fetchWalletStats. rewrite Ht, Hv. cbn [negb]. cbn.
    settle env; intros Hin;
      repeat (destruct Hin as [<-|Hin]; [repeat split; reflexivity|]);
      destruct Hin.
  - rewrite (fetchWalletStats_rejects _ Hv). cbn. intros [].
Qed.

(** A submission of a valid address always settles, with [loading] cleared
    and the error or the stats empty. *)
Lemma submit_settles (w : World) :
  App.isValidAddress (trim (walletAddress (state w))) = true ->
  exists w' tr,
    run env App.handleSubmit w = (w', tr, Normal tt)
    /\ loading (state w') = false
    /\ (error (state w') = [] \/ stats (state w') = JNull).
Proof.
  intros Hv. pose proof (valid_address_not_empty _ Hv) as Ht.
  unfold App.handleSubmit, App.fetchWalletStats.
  cbn [run]. rewrite Ht, Hv. cbn [negb]. cbn.
  settle env; eexists; eexists; (split; [reflexivity|]); cbn;
    (split; [reflexivity|]); (left; reflexivity) || (right; reflexivity).
Qed.

(** C1. For every input whose trimmed form is a valid address, the
    submission stops at its first suspension point with [loading] set, the
    stored stats and the error cleared, and one request pending: the fetch
    of [https://donkey-api.liquidlaunch.app/api/wallet/] followed by the
    trimmed address; the page stays so at every suspension point; and the
    whole run issues exactly one outbound request, for that URL. *)
Theorem submit_valid_address (w : World) :
  App.isValidAddress (trim (walletAddress (state w))) = true ->
  (exists w1 k,
      start App.handleSubmit w
      = (w1,
         [Issue (Fetch (lit "https://donkey-api.liquidlaunch.app/api/wallet/"
                        ++ trim (walletAddress (state w))))],
         Suspended (Fetch (lit "https://donkey-api.liquidlaunch.app/api/wallet/"
                           ++ trim (walletAddress (state w)))) k)
      /\ loading (state w1) = true /\ stats (state w1) = JNull
      /\ error (state w1) = [])
  /\ (forall w', In w' (suspensions env App.handleSubmit w) ->
        loading (state w') = true /\ stats (state w') = JNull
        /\ error (state w') = [])
  /\ fetched (snd (fst (run env App.handleSubmit w)))
     = [lit "https://donkey-api.liquidlaunch.app/api/wallet/"
        ++ trim (walletAddress (state w))].
Proof.
  intros Hv. pose proof (valid_address_not_empty _ Hv) as Ht.
  unfold App.handleSubmit, App.fetchWalletStats.
  cbn [start run suspensions]. rewrite Ht, Hv. cbn [negb].
  split; [|split].
  - eexists. eexists. cbn. split; [reflexivity|]. repeat split; reflexivity.
  - cbn. settle env; intros w' Hin;
      repeat (destruct Hin as [<-|Hin]; [repeat split; reflexivity|]);
      destruct Hin.
  - cbn. settle env; reflexivity.
Qed.

(** C2 (amended). For every submission of a valid address, when the
    transport fails, or the status is not a success, or the body is not
    JSON, the handler completes normally with [loading] cleared, no stats
    stored, and the error set to the message of the fault (the fixed text
    for a bad status, ["An error occurred"] for a thrown value that is not
    an [Error]); the message is empty only if the fault is an [Error] with
    an empty message. *)
Theorem submit_failure (w : World) (t : thrown) :
  App.isValidAddress (trim (walletAddress (state w))) = true ->
  fetch_failure env (App.api_url (trim (walletAddress (state w)))) t ->
  exists w' tr,
    run env App.handleSubmit w = (w', tr, Normal tt)
    /\ loading (state w') = false
    /\ stats (state w') = JNull
    /\ error (state w') = App.error_text t
    /\ (error (state w') = [] -> exists name, t = ErrorObject name [])
    /\ walletAddress (state w') = walletAddress (state w)
    /\ isGeneratingImage (state w') = isGeneratingImage (state w).
Proof.
  intros Hv Hfail. pose proof (valid_address_not_empty _ Hv) as Ht.
  unfold App.handleSubmit, App.fetchWalletStats.
  cbn [run]. rewrite Ht, Hv. cbn [negb]. cbn.
  destruct Hfail as [t E | r E Hok | r t E Hok Ebody]; rewrite E; cbn;
    try rewrite Hok; cbn; try rewrite Ebody; cbn;
    eexists; eexists; (split; [reflexivity|]); cbn;
    repeat split; try reflexivity; try apply error_text_empty;
    discriminate.
Qed.

(** C3 (amended). For every input whose trimmed form does not match the
    pattern, the empty input included, the submission completes at once:
    the error is set to a non-empty message, nothing else changes, no
    request is issued and nothing is left pending. *)
Theorem submit_rejected (w : World) :
  App.isValidAddress (trim (walletAddress (state w))) = false ->
  exists w',
    run env App.handleSubmit w = (w', [], Normal tt)
    /\ start App.handleSubmit w = (w', [], Done (Normal tt))
    /\ suspensions env App.handleSubmit w = []
    /\ error (state w') = rejection_text (walletAddress (state w))
    /\ error (state w') <> []
    /\ stats (state w') = stats (state w)
    /\ loading (state w') = loading (state w)
    /\ walletAddress (state w') = walletAddress (state w)
    /\ isGeneratingImage (state w') = isGeneratingImage (state w)
    /\ statsCardRef w' = statsCardRef w
    /\ display w' = display w.
Proof.
  intros Hv. unfold App.handleSubmit. cbn [run start suspensions].
  rewrite (fetchWalletStats_rejects _ Hv).
  eexists. cbn. repeat split. apply rejection_text_not_empty.
Qed.

(** What a completed lookup leaves: the body on success, the message of the
    fault on failure. *)
Lemma submit_success (w : World) (data : json) :
  App.isValidAddress (trim (walletAddress (state w))) = true ->
  fetch_success env (App.api_url (trim (walletAddress (state w)))) data ->
  exists w' tr,
    run env App.handleSubmit w = (w', tr, Normal tt)
    /\ loading (state w') = false
    /\ stats (state w') = data
    /\ error (state w') = [].
Proof.
  intros Hv (r & E & Hok & Ebody). pose proof (valid_address_not_empty _ Hv) as Ht.
  unfold App.handleSubmit, App.fetchWalletStats.
  cbn [run]. rewrite Ht, Hv. cbn [negb]. cbn.
  rewrite E. cbn. rewrite Hok. cbn. rewrite Ebody. cbn.
  eexists; eexists; repeat split; reflexivity.
Qed.

End Controller.

(** ** The export of the card *)

#[local] Arguments App.download_name : simpl never.

Section CardExport.

Variable env : environment.

(** C10. Without loaded stats, or without a mounted card, the export
    returns at once: the world is unchanged (the in-progress flag is not
    set, no button is hidden), nothing is awaited and no link is clicked. *)
Theorem export_without_card (w : World) :
  statsCardRef w = None \/ Json.truthy (stats (state w)) = false ->
  run env App.handleSaveClick w = (w, [], Normal tt)
  /\ start App.handleSaveClick w = (w, [], Done (Normal tt))
  /\ suspensions env App.handleSaveClick w = [].
Proof.
  intros H. unfold App.handleSaveClick, App.downloadStatsImage.
  cbn [run start suspensions].
  destruct (statsCardRef w) as [card|]; [|repeat split].
  destruct H as [H|H]; [discriminate|]. rewrite H. repeat split.
Qed.

Lemma export_skipped (w : World) :
  statsCardRef w = None \/ Json.truthy (stats (state w)) = false ->
  run env App.handleSaveClick w = (w, [], Normal tt).
Proof.
  intros H. unfold App.handleSaveClick, App.downloadStatsImage. cbn [run].
  destruct (statsCardRef w) as [card|]; [|reflexivity].
  destruct H as [H|H]; [discriminate|]. rewrite H. reflexivity.
Qed.

Ltac close_export :=
  eexists; (split; [reflexivity|]); cbn;
  repeat match goal with |- _ /\ _ => split end;
  try reflexivity; try assumption; try (symmetry; assumption);
  try discriminate;
  try (intros ? [= <-]; rewrite Nat.eqb_refl; reflexivity);
  try (intros x Hx;
       match goal with
       | |- context [Nat.eqb ?a ?b] =>
           destruct (Nat.eqb_spec a b); [subst; congruence|reflexivity]
       end);
  try (intros ? [<-|[]]; cbn; split; [reflexivity|]; try discriminate;
       intros ? [= <-]; rewrite Nat.eqb_refl; reflexivity).

(** The whole run of an export on a rendered card. *)
Lemma run_export (w : World) (card : CardNode) :
  statsCardRef w = Some card -> Json.truthy (stats (state w)) = true ->
  exists w',
    run env App.handleSaveClick w
    = (w',
       Issue (Html2Canvas card (App.png_options card))
       :: match capture env card (stats (state w)) with
          | Normal (download, href) => [LinkClick download href]
          | Abrupt t => [ConsoleError (lit "Error generating image:") t]
          end,
       Normal tt)
    /\ isGeneratingImage (state w') = false
    /\ (forall b, saveButton card = Some b -> display w' b = lit "flex")
    /\ (forall x, saveButton card <> Some x -> display w' x = display w x)
    /\ walletAddress (state w') = walletAddress (state w)
    /\ stats (state w') = stats (state w)
    /\ loading (state w') = loading (state w)
    /\ error (state w') = error (state w)
    /\ statsCardRef w' = statsCardRef w
    /\ (forall w1, In w1 (suspensions env App.handleSaveClick w) ->
          isGeneratingImage (state w1) = true
          /\ (forall b, saveButton card = Some b -> display w1 b = lit "none")).
Proof.
  intros Hcard Hstats.
  unfold App.handleSaveClick, App.downloadStatsImage, capture.
  cbn [run suspensions]. rewrite Hcard, Hstats. cbn [negb].
  destruct (saveButton card) as [b|] eqn:Hb; cbn; rewrite Hcard; cbn;
    (destruct (env Canvas _) as [canvas|t]; cbn;
     [ destruct (App.download_name (stats (state w))) as [d|t]; cbn;
       [ destruct (toDataURL canvas (lit "image/png")) as [h|t]; cbn |]
     | ]);
    close_export.
Qed.

(** The export never touches the state of the query. *)
Lemma export_keeps_query_state (w : World) :
  walletAddress (state (after env ClickSave w)) = walletAddress (state w)
  /\ stats (state (after env ClickSave w)) = stats (state w)
  /\ loading (state (after env ClickSave w)) = loading (state w)
  /\ error (state (after env ClickSave w)) = error (state w).
Proof.
  unfold after. cbn [handler].
  destruct (statsCardRef w) as [card|] eqn:Hcard.
  - destruct (Json.truthy (stats (state w))) eqn:Hstats.
    + destruct (run_export w card Hcard Hstats)
        as (w' & -> & _ & _ & _ & Ha & Hs & Hl & He & _).
      cbn. auto.
    + rewrite (export_skipped w (or_intror Hstats)). cbn. auto.
  - rewrite (export_skipped w (or_introl Hcard)). cbn. auto.
Qed.

(** The export up to its suspension point, and its resumption in any world
    the page may be in by then. *)
Lemma export_resumption (w : World) (card : CardNode) :
  statsCardRef w = Some card -> Json.truthy (stats (state w)) = true ->
  exists w1 k,
    start App.handleSaveClick w
    = (w1, [Issue (Html2Canvas card (App.png_options card))],
       Suspended (Html2Canvas card (App.png_options card)) k)
    /\ isGeneratingImage (state w1) = true
    /\ (forall b, saveButton card = Some b -> display w1 b = lit "none")
    /\ forall (r : completion Canvas) (w' : World),
         exists w2 tr,
           start (k r) w' = (w2, tr, Done (Normal tt))
           /\ isGeneratingImage (state w2) = false
           /\ (forall b, saveButton card = Some b -> display w2 b = lit "flex")
           /\ same_query w' w2.
Proof.
  intros Hcard Hstats.
  unfold App.handleSaveClick, App.downloadStatsImage.
  cbn [start]. rewrite Hcard, Hstats. cbn [negb].
  destruct (saveButton card) as [b|] eqn:Hb; cbn; rewrite Hcard; cbn;
    eexists; eexists; (split; [reflexivity|]); cbn;
    (split; [reflexivity|]);
    (split; [try discriminate;
             try (intros ? [= <-]; rewrite Nat.eqb_refl; reflexivity)|]);
    intros r w'; destruct r as [canvas|t]; cbn;
    try (destruct (App.download_name (stats (state w))) as [d|t]; cbn;
         try (destruct (toDataURL canvas (lit "image/png")) as [h|t]; cbn));
    eexists; eexists; (split; [reflexivity|]); cbn;
    (split; [reflexivity|]);
    (split; [try discriminate;
             try (intros ? [= <-]; rewrite Nat.eqb_refl; reflexivity)|]);
    repeat split.
Qed.

(** C5. For every export on a rendered card, however the capture and the
    encoding settle: the handler completes normally, the in-progress flag
    is cleared, the save button is shown again, and the state of the query
    (address, stats, loading, error) is as before; a fault of the capture
    is logged with [console.error] and nothing else is done with it. While
    the capture is pending the flag is set and the button hidden. The same
    holds in whatever world the handler is resumed: it ends at once, with
    the flag cleared, the button shown and the query untouched. *)
Theorem export_restores_button (w : World) (card : CardNode) :
  statsCardRef w = Some card -> Json.truthy (stats (state w)) = true ->
  (exists w' tr,
    run env App.handleSaveClick w = (w', tr, Normal tt)
    /\ isGeneratingImage (state w') = false
    /\ (forall b, saveButton card = Some b -> visible w' b = true)
    /\ (forall t, capture env card (stats (state w)) = Abrupt t ->
          tr = [Issue (Html2Canvas card (App.png_options card));
                ConsoleError (lit "Error generating image:") t])
    /\ error (state w') = error (state w)
    /\ stats (state w') = stats (state w)
    /\ loading (state w') = loading (state w)
    /\ walletAddress (state w') = walletAddress (state w)
    /\ (forall w1, In w1 (suspensions env App.handleSaveClick w) ->
          isGeneratingImage (state w1) = true
          /\ (forall b, saveButton card = Some b -> visible w1 b = false)))
  /\ (exists k,
        snd (start App.handleSaveClick w)
        = Suspended (Html2Canvas card (App.png_options card)) k
        /\ forall (r : completion Canvas) (w' : World),
             exists w2 tr,
               start (k r) w' = (w2, tr, Done (Normal tt))
               /\ isGeneratingImage (state w2) = false
               /\ (forall b, saveButton card = Some b -> visible w2 b = true)
               /\ same_query w' w2).
Proof.
  intros Hcard Hstats. split.
  - destruct (run_export w card Hcard Hstats)
      as (w' & Hrun & Hflag & Hshown & _ & Ha & Hs & Hl & He & _ & Hpending).
    exists w'. eexists. split; [exact Hrun|].
    repeat match goal with |- _ /\ _ => split end; auto.
    + intros b Hb. unfold visible. rewrite (Hshown b Hb). reflexivity.
    + intros t Ht. rewrite Ht. reflexivity.
    + intros w1 Hin. destruct (Hpending w1 Hin) as [Hset Hhidden].
      split; [exact Hset|].
      intros b Hb. unfold visible. rewrite (Hhidden b Hb). reflexivity.
  - destruct (export_resumption w card Hcard Hstats)
      as (w1 & k & Hstart & _ & _ & Hresume).
    exists k. rewrite Hstart. split; [reflexivity|].
    intros r w'. destruct (Hresume r w') as (w2 & tr & H2 & Hflag & Hshown & Hsame).
    exists w2, tr. repeat match goal with |- _ /\ _ => split end; auto.
    intros b Hb. unfold visible. rewrite (Hshown b Hb). reflexivity.
Qed.

(** C8. For every export whose capture and encoding succeed, on stats whose
    [address] is a string: one capture of the card is requested, at scale 2
    over the background [#000000] with the current width and height of the
    card, and one link is clicked, whose target is the [image/png] data URL
    of the canvas and whose file name is [wallet-stats-], the first eight
    characters of the address of the stats, and [.png]. *)
Theorem export_saves_png (w : World) (card : CardNode) (canvas : Canvas)
    (a href : jsstr) :
  statsCardRef w = Some card ->
  Json.get (lit "address") (stats (state w)) = Some (JString a) ->
  env _ (Html2Canvas card (App.png_options card)) = Normal canvas ->
  toDataURL canvas (lit "image/png") = Normal href ->
  App.png_options card
  = {| backgroundColor := lit "#000000"; scale := 2; useCORS := true;
       allowTaint := true; width := offsetWidth card;
       height := offsetHeight card |}
  /\ snd (fst (run env App.handleSaveClick w))
     = [Issue (Html2Canvas card (App.png_options card));
        LinkClick (lit "wallet-stats-" ++ firstn 8 a ++ lit ".png") href].
Proof.
  intros Hcard Haddr Hcanvas Hurl. split; [reflexivity|].
  assert (Hstats : Json.truthy (stats (state w)) = true).
  { destruct (stats (state w)); try discriminate. reflexivity. }
  destruct (run_export w card Hcard Hstats) as (w' & -> & _).
  cbn [fst snd]. unfold capture, App.download_name.
  rewrite Hcanvas, Haddr. cbn. rewrite Hurl. reflexivity.
Qed.

End CardExport.

(** ** The invariant of the query state *)

Section PageFacts.

Lemma same_query_refl (w : World) : same_query w w.
Proof. repeat split. Qed.

Lemma same_query_trans (w1 w2 w3 : World) :
  same_query w1 w2 -> same_query w2 w3 -> same_query w1 w3.
Proof.
  intros (Hl & He & Hs) (Hl' & He' & Hs').
  repeat split; congruence.
Qed.

Lemma in_flight_same_query (w w' : World) :
  in_flight w -> same_query w w' -> in_flight w'.
Proof.
  intros (Hl & He & Hs) (Hl' & He' & Hs'). repeat split; congruence.
Qed.

Section Start.

Variables G R : World -> World -> Prop.
Variable I : World -> Prop.
Variable allowed : forall T : Type, request T -> bool.
Hypothesis G_refl : forall w, G w w.
Hypothesis G_trans : forall w1 w2 w3, G w1 w2 -> G w2 w3 -> G w1 w3.

(** What [safe] promises about the first segment of a run. *)
Lemma safe_start (Q Q' : World -> Prop) (p : Prog unit) (w : World) :
  safe G R I allowed Q Q' p w ->
  G w (fst (fst (start p w)))
  /\ match snd (start p w) with
     | Done _ => Q (fst (fst (start p w)))
     | @Suspended _ T q k =>
         allowed T q = true /\ I (fst (fst (start p w)))
         /\ forall r w', R (fst (fst (start p w))) w' ->
                         safe G R I allowed Q' Q' (k r) w'
     end.
Proof.
  revert w. induction p as [a | t | k IH | f k IH | e k IH | T q k IH];
    intros w Hsafe; cbn [start safe] in *.
  - split; [apply G_refl | exact Hsafe].
  - split; [apply G_refl | exact Hsafe].
  - apply IH, Hsafe.
  - destruct Hsafe as [Hg Hk]. destruct (IH _ Hk) as [Hg' Hrest].
    split; [eapply G_trans; eassumption | exact Hrest].
  - specialize (IH _ Hsafe). destruct (start k w) as [[w' tr] pr].
    exact IH.
  - split; [apply G_refl | exact Hsafe].
Qed.

End Start.

(** A submission started while nothing is loading follows the protocol of
    a lookup: rejected at once it leaves [loading] cleared; suspended it
    shows the loading state; settled it leaves at most one of the error and
    the stats. *)
Lemma handleSubmit_safe (w : World) :
  loading (state w) = false ->
  lookup_safe (fun w' => loading (state w') = false) settled App.handleSubmit w.
Proof.
  intros Hidle. unfold lookup_safe, App.handleSubmit. cbn [safe].
  destruct (App.isValidAddress (trim (walletAddress (state w)))) eqn:Hv.
  - pose proof (valid_address_not_empty _ Hv) as Ht.
    unfold App.fetchWalletStats. rewrite Ht, Hv. cbn [negb]. cbn.
    repeat split.
    intros r w1 (Hl & He & Hs). cbn in Hl, He, Hs.
    destruct r as [[[|]]|t]; cbn.
    + repeat split; auto.
      intros r2 w2 (Hl2 & He2 & Hs2).
      destruct r2 as [data|t]; cbn; unfold App.with_state; cbn;
        repeat split; auto.
      * left. simpl. congruence.
      * right. simpl. congruence.
    + unfold App.with_state; simpl. repeat split. right. exact Hs.
    + unfold App.with_state; simpl. repeat split. right. exact Hs.
  - rewrite (fetchWalletStats_rejects _ Hv). cbn. split; [exact I|exact Hidle].
Qed.

Ltac same_query_auto :=
  repeat match goal with
         | |- _ /\ _ => split
         | |- True => exact I
         | |- same_query _ _ => unfold same_query, App.with_state; simpl; auto
         | |- negb _ = true => reflexivity
         | |- true = true => reflexivity
         end.

Lemma handleSaveClick_safe (w : World) : export_safe App.handleSaveClick w.
Proof.
  unfold export_safe, App.handleSaveClick, App.downloadStatsImage. cbn [safe].
  destruct (statsCardRef w) as [card|] eqn:Hcard; [|exact I].
  destruct (Json.truthy (stats (state w))); cbn [negb]; [|exact I].
  destruct (saveButton card) as [b|]; cbn; rewrite Hcard; cbn;
    same_query_auto;
    intros r w' _; destruct r as [canvas|t]; cbn;
    try (destruct (App.download_name (stats (state w))) as [d|t]; cbn;
         try (destruct (toDataURL canvas (lit "image/png")) as [h|t]; cbn));
    same_query_auto.
Qed.

Lemma world_dispatch (p : Prog unit) (w : World) (others : list task) :
  world (dispatch p w others) = fst (fst (start p w)).
Proof. unfold dispatch. destruct (start p w) as [[w' tr] pr]. reflexivity. Qed.

Lemma pending_dispatch (p : Prog unit) (w : World) (others : list task) :
  pending (dispatch p w others)
  = match snd (start p w) with
    | Done _ => others
    | Suspended q k => Pending q k :: others
    end.
Proof. unfold dispatch. destruct (start p w) as [[w' tr] pr]. reflexivity. Qed.

Lemma lookups_app (ts us : list task) :
  lookups (ts ++ us) = (lookups ts + lookups us)%nat.
Proof. unfold lookups. rewrite filter_app, length_app. reflexivity. Qed.

Lemma lookups_cons (t : task) (ts : list task) :
  lookups (t :: ts) = ((if lookup_task t then 1 else 0) + lookups ts)%nat.
Proof. unfold lookups. cbn [filter]. destruct (lookup_task t); reflexivity. Qed.

(** A task stays safe when the query is kept. *)
Lemma task_safe_same_query (w w' : World) (t : task) :
  same_query w w' -> task_safe w t -> task_safe w' t.
Proof.
  intros Hsame. destruct t as [T q k]. cbn [task_safe].
  destruct (is_lookup q); [|auto].
  intros [Hfl Hk]. split.
  - eapply in_flight_same_query; eassumption.
  - intros r w'' Hsame'. apply Hk. eapply same_query_trans; eassumption.
Qed.

(** Without a lookup among them, tasks stay safe whatever happens. *)
Lemma tasks_safe_idle (w w' : World) (ts : list task) :
  lookups ts = 0%nat -> Forall (task_safe w) ts -> Forall (task_safe w') ts.
Proof.
  induction ts as [|t ts IH]; intros Hnone Hsafe; [constructor|].
  rewrite lookups_cons in Hnone. inversion Hsafe as [|? ? Ht Hts]; subst.
  constructor.
  - destruct t as [T q k]. cbn [task_safe lookup_task] in *.
    destruct (is_lookup q); [discriminate|exact Ht].
  - apply IH; [lia|exact Hts].
Qed.

(** A lookup started or resumed while no other lookup waits. *)
Lemma dispatch_lookup (Q : World -> Prop) (p : Prog unit) (w : World)
    (others : list task) :
  (forall w', Q w' -> loading (state w') = false) ->
  lookup_safe Q settled p w ->
  lookups others = 0%nat ->
  Forall (task_safe w) others ->
  page_invariant (dispatch p w others).
Proof.
  intros HQ Hsafe Hnone Hothers.
  destruct (safe_start _ _ _ _ (fun _ => I) (fun _ _ _ _ _ => I) _ _ _ _ Hsafe)
    as [_ Hstart].
  pose proof (world_dispatch p w others) as Hw.
  pose proof (pending_dispatch p w others) as Hp.
  destruct (snd (start p w)) as [c|T q k].
  - pose proof (HQ _ Hstart) as Hidle. rewrite <- Hw in Hidle.
    constructor; rewrite ?Hp.
    + congruence.
    + eapply tasks_safe_idle; eassumption.
    + auto.
    + lia.
  - destruct Hstart as (Hkind & Hfl & Hk). rewrite <- Hw in Hfl, Hk.
    constructor; rewrite ?Hp.
    + auto.
    + constructor.
      * cbn [task_safe]. rewrite Hkind. split; assumption.
      * eapply tasks_safe_idle; eassumption.
    + destruct Hfl as [Hl _]. congruence.
    + rewrite lookups_cons. cbn [lookup_task]. rewrite Hkind. lia.
Qed.

(** A handler that keeps the query, started or resumed at any time. *)
Lemma dispatch_export (p : Prog unit) (w : World) (others : list task) :
  export_safe p w ->
  (loading (state w) = true -> in_flight w) ->
  Forall (task_safe w) others ->
  (loading (state w) = false -> lookups others = 0%nat) ->
  (lookups others <= 1)%nat ->
  same_query w (world (dispatch p w others))
  /\ page_invariant (dispatch p w others).
Proof.
  intros Hsafe Hfl Hothers Hidle Hone.
  destruct (safe_start _ _ _ _ same_query_refl same_query_trans _ _ _ _ Hsafe)
    as [Hsame Hstart].
  pose proof (world_dispatch p w others) as Hw.
  pose proof (pending_dispatch p w others) as Hp.
  rewrite <- Hw in Hsame. split; [exact Hsame|].
  assert (Hothers' : Forall (task_safe (world (dispatch p w others))) others).
  { eapply Forall_impl; [|exact Hothers].
    intros t. apply task_safe_same_query. exact Hsame. }
  destruct Hsame as (Hl & He & Hs).
  assert (Hfl' : loading (state (world (dispatch p w others))) = true ->
                 in_flight (world (dispatch p w others))).
  { intros H. rewrite Hl in H. destruct (Hfl H) as (? & ? & ?).
    repeat split; congruence. }
  destruct (snd (start p w)) as [c|T q k].
  - constructor; rewrite ?Hp; auto.
    intros H. apply Hidle. congruence.
  - destruct Hstart as (Hkind & _ & Hk).
    apply negb_true_iff in Hkind.
    constructor; rewrite ?Hp; auto.
    + constructor; [|exact Hothers'].
      cbn [task_safe]. rewrite Hkind. intros r w'. apply Hk. exact I.
    + intros H. rewrite lookups_cons. cbn [lookup_task]. rewrite Hkind.
      cbn. apply Hidle. congruence.
    + rewrite lookups_cons. cbn [lookup_task]. rewrite Hkind. exact Hone.
Qed.

Lemma setWalletAddress_safe (text : jsstr) (w : World) :
  export_safe (App.setWalletAddress text) w.
Proof. unfold export_safe. cbn. same_query_auto. Qed.

(** A resumed lookup that clears [loading] has settled. *)
Lemma lookup_completion (p : Prog unit) (w : World) (others : list task) :
  lookup_safe settled settled p w ->
  loading (state (world (dispatch p w others))) = false ->
  settled (world (dispatch p w others)).
Proof.
  intros Hsafe Hidle.
  destruct (safe_start _ _ _ _ (fun _ => I) (fun _ _ _ _ _ => I) _ _ _ _ Hsafe)
    as [_ Hstart].
  rewrite world_dispatch in *.
  destruct (snd (start p w)) as [c|T q k]; [exact Hstart|].
  destruct Hstart as (_ & (Hl & _) & _). congruence.
Qed.

Lemma settle_split (ts before after : list task) (t : task) :
  ts = before ++ t :: after ->
  lookups ts = (lookups before + lookups after
                + if lookup_task t then 1 else 0)%nat.
Proof. intros ->. rewrite lookups_app, lookups_cons. lia. Qed.

Lemma step_invariant (pg pg' : Page) :
  page_invariant pg -> step pg pg' -> page_invariant pg'.
Proof.
  intros [Hfl Hsafe Hidle Hone] Hstep.
  destruct Hstep as [pg text Hguard | pg Hguard | pg Hflag Hstats
                    | pg T q k r before after Hpending | pg ref].
  - apply dispatch_export; auto using setWalletAddress_safe.
  - eapply dispatch_lookup with (Q := fun w' => loading (state w') = false);
      auto using handleSubmit_safe.
  - apply dispatch_export; auto using handleSaveClick_safe.
  - pose proof (settle_split _ _ _ _ Hpending) as Hcount.
    rewrite Hpending in Hsafe.
    apply Forall_app in Hsafe. destruct Hsafe as [Hbefore Hrest].
    inversion Hrest as [|? ? Ht Hafter]; subst.
    assert (Hothers : Forall (task_safe (world pg)) (before ++ after))
      by (apply Forall_app; split; assumption).
    cbn [lookup_task task_safe] in *.
    destruct (is_lookup q) eqn:Hkind.
    + destruct Ht as [_ Hk].
      eapply dispatch_lookup with (Q := settled).
      * intros w' [Hl _]. exact Hl.
      * apply Hk, same_query_refl.
      * rewrite lookups_app. lia.
      * exact Hothers.
    + apply dispatch_export; auto.
      * intros Hl. rewrite lookups_app. specialize (Hidle Hl). lia.
      * rewrite lookups_app. lia.
  - constructor; cbn [world pending]; auto.
Qed.

Lemma initial_invariant : page_invariant initial_page.
Proof. constructor; cbn; auto; discriminate. Qed.

Lemma reachable_invariant (pg : Page) : reachable pg -> page_invariant pg.
Proof.
  induction 1 as [|pg pg' _ IH Hstep];
    [exact initial_invariant | eapply step_invariant; eassumption].
Qed.

(** Whenever a step clears [loading], the lookup has settled. *)
Lemma step_completion (pg pg' : Page) :
  page_invariant pg -> step pg pg' ->
  loading (state (world pg)) = true ->
  loading (state (world pg')) = false ->
  settled (world pg').
Proof.
  intros [Hfl Hsafe Hidle Hone] Hstep Hbusy Hdone.
  assert (Hkeep : forall p,
             export_safe p (world pg) ->
             forall others,
               Forall (task_safe (world pg)) others ->
               (lookups others <= 1)%nat ->
               (loading (state (world pg)) = false -> lookups others = 0%nat) ->
               loading (state (world (dispatch p (world pg) others))) = true).
  { intros p Hp others Hothers Hle Hzero.
    destruct (dispatch_export p (world pg) others Hp Hfl Hothers Hzero Hle)
      as [(Hl & _) _].
    congruence. }
  destruct Hstep as [pg text Hguard | pg Hguard | pg Hflag Hstats
                    | pg T q k r before after Hpending | pg ref].
  - congruence.
  - congruence.
  - rewrite (Hkeep _ (handleSaveClick_safe _) _ Hsafe Hone Hidle) in Hdone.
    discriminate.
  - pose proof (settle_split _ _ _ _ Hpending) as Hcount.
    rewrite Hpending in Hsafe.
    apply Forall_app in Hsafe. destruct Hsafe as [Hbefore Hrest].
    inversion Hrest as [|? ? Ht Hafter]; subst.
    cbn [lookup_task task_safe] in *.
    destruct (is_lookup q) eqn:Hkind.
    + destruct Ht as [_ Hk].
      apply lookup_completion; [apply Hk, same_query_refl|exact Hdone].
    + rewrite Hkeep in Hdone; [discriminate|auto|..].
      * apply Forall_app; split; assumption.
      * rewrite lookups_app. lia.
      * intros Hl. congruence.
  - cbn in Hdone. congruence.
Qed.

Lemma step_settle_with (env : environment) (pg : Page) :
  pending pg <> [] -> step pg (settle_with env pg).
Proof.
  unfold settle_with. destruct (pending pg) as [|[T q k] rest] eqn:Hp;
    [congruence|]. intros _.
  exact (step_settle pg T q k (env T q) [] rest Hp).
Qed.

(** C4 (amended). Before the first submission the error and the stats are
    empty. In every state the page can reach, with its handlers interleaved
    at their suspension points: while [loading] is set both are empty, and
    [loading] is set as long as a lookup waits for the network; and whenever
    a step clears [loading], the lookup having settled with success or
    failure, at most one of the two is populated. (A rejected submission
    sets the error and keeps the stats it finds.) *)
Theorem query_state_invariant (pg : Page) :
  reachable pg ->
  (error (state (world initial_page)) = []
   /\ stats (state (world initial_page)) = JNull)
  /\ (loading (state (world pg)) = true ->
        error (state (world pg)) = [] /\ stats (state (world pg)) = JNull)
  /\ (forall t, In t (pending pg) -> lookup_task t = true ->
        loading (state (world pg)) = true
        /\ error (state (world pg)) = [] /\ stats (state (world pg)) = JNull)
  /\ (forall pg', step pg pg' ->
        loading (state (world pg)) = true ->
        loading (state (world pg')) = false ->
        error (state (world pg')) = [] \/ stats (state (world pg')) = JNull).
Proof.
  intros Hreach. pose proof (reachable_invariant pg Hreach) as Hinv.
  split; [split; reflexivity|]. split; [|split].
  - intros Hl. destruct (loading_is_in_flight pg Hinv Hl) as (_ & He & Hs). auto.
  - intros [T q k] Hin Hkind.
    pose proof (proj1 (Forall_forall _ _) (tasks_are_safe pg Hinv) _ Hin) as Ht.
    cbn [task_safe lookup_task] in *. rewrite Hkind in Ht.
    destruct Ht as [Hfl _]. exact Hfl.
  - intros pg' Hstep Hbusy Hdone.
    destruct (step_completion pg pg' Hinv Hstep Hbusy Hdone) as [_ Hone].
    exact Hone.
Qed.

End PageFacts.

(** ** Scenarios *)

(** C1 on the address of the README: the one request of the run is for
    the URL of the collaborator with that address at its end. *)
Lemma submit_valid_address_witness :
  App.isValidAddress
    (trim (walletAddress (state (Sample.world_typing Sample.valid_address)))) = true
  /\ fetched (snd (fst (run Sample.env_failing App.handleSubmit
                         (Sample.world_typing Sample.valid_address))))
     = [lit "https://donkey-api.liquidlaunch.app/api/wallet/0xABCABCABCABCABCABCABCABCABCABCABCABCABCA"].
Proof.
  split; [reflexivity|].
  apply (proj2 (proj2 (submit_valid_address Sample.env_failing
                         (Sample.world_typing Sample.valid_address)
                         eq_refl))).
Defined.

(** C2, as stated, fails on a body that is JSON but not a WalletStats: the
    empty object is stored as the stats and no error is shown. *)
Lemma malformed_payload_is_stored :
  App.isValidAddress
    (trim (walletAddress (state (Sample.world_typing Sample.valid_address)))) = true
  /\ as_WalletStats (JObject []) = None
  /\ run (Sample.env_answering (JObject [])) App.handleSubmit
       (Sample.world_typing Sample.valid_address)
     = ({| state := {| walletAddress := Sample.valid_address;
                       stats := JObject [];
                       loading := false;
                       error := [];
                       isGeneratingImage := false |};
           statsCardRef := None;
           display := fun _ => [] |},
        [Issue (Fetch (App.api_url Sample.valid_address));
         Issue (ResponseJson {| ok := true |})],
        Normal tt).
Proof. repeat split. Qed.

(** C2 when the collaborator cannot be reached. *)
Lemma submit_failure_witness :
  App.isValidAddress
    (trim (walletAddress (state (Sample.world_typing Sample.valid_address)))) = true
  /\ fetch_failure Sample.env_failing
       (App.api_url (trim (walletAddress (state (Sample.world_typing Sample.valid_address)))))
       (ErrorObject (lit "TypeError") (lit "Failed to fetch"))
  /\ exists w' tr,
       run Sample.env_failing App.handleSubmit
         (Sample.world_typing Sample.valid_address) = (w', tr, Normal tt)
       /\ loading (state w') = false
       /\ stats (state w') = JNull
       /\ error (state w') = lit "Failed to fetch".
Proof.
  split; [reflexivity|].
  assert (F : fetch_failure Sample.env_failing
                (App.api_url (trim (walletAddress
                   (state (Sample.world_typing Sample.valid_address)))))
                (ErrorObject (lit "TypeError") (lit "Failed to fetch")))
    by (apply transport_failure; reflexivity).
  split; [exact F|].
  destruct (submit_failure Sample.env_failing
              (Sample.world_typing Sample.valid_address) _ eq_refl F)
    as (w' & tr & Hrun & Hl & Hs & He & _).
  exists w', tr. auto.
Defined.

(** C3, as stated, fails on an address typed with a space in front: the
    input does not match the pattern, and the lookup is issued all the
    same, for the trimmed address. *)
Lemma padded_address_is_fetched :
  App.isValidAddress
    (walletAddress (state (Sample.world_typing Sample.padded_address))) = false
  /\ fetched (snd (fst (run Sample.env_failing App.handleSubmit
                         (Sample.world_typing Sample.padded_address))))
     = [App.api_url Sample.valid_address].
Proof. split; reflexivity. Qed.

(** C3 on an input that is not an address. *)
Lemma submit_rejected_witness :
  App.isValidAddress
    (trim (walletAddress (state (Sample.world_typing (lit "abc"))))) = false
  /\ exists w',
       run Sample.env_failing App.handleSubmit (Sample.world_typing (lit "abc"))
       = (w', [], Normal tt)
       /\ error (state w') = lit "Please enter a valid Ethereum wallet address".
Proof.
  split; [reflexivity|].
  destruct (submit_rejected Sample.env_failing
              (Sample.world_typing (lit "abc")) eq_refl)
    as (w' & Hrun & _ & _ & He & _).
  exists w'. split; [exact Hrun|exact He].
Defined.

(** C4, as stated, fails: the page reaches a state in which the error and
    the stats are both populated. After the stats of the README have
    loaded, [abc] is typed and submitted: the error of the rejection is
    shown next to the stats. *)
Lemma rejected_submission_keeps_stats :
  reachable Sample.page_rejected
  /\ pending Sample.page_rejected = []
  /\ loading (state (world Sample.page_rejected)) = false
  /\ error (state (world Sample.page_rejected))
     = lit "Please enter a valid Ethereum wallet address"
  /\ stats (state (world Sample.page_rejected))
     = json_of_WalletStats Sample.readme_stats
  /\ as_WalletStats (stats (state (world Sample.page_rejected)))
     = Some Sample.readme_stats.
Proof.
  split; [|repeat split].
  apply (reachable_step Sample.page_retyped);
    [|exact (step_submit Sample.page_retyped eq_refl)].
  apply (reachable_step Sample.page_loaded);
    [|exact (step_type Sample.page_loaded (lit "abc") eq_refl)].
  eapply reachable_step; [|apply step_settle_with; discriminate].
  eapply reachable_step; [|apply step_settle_with; discriminate].
  apply (reachable_step Sample.page_typed);
    [|exact (step_submit Sample.page_typed eq_refl)].
  apply (reachable_step initial_page);
    [exact reachable_initial|].
  exact (step_type initial_page Sample.valid_address eq_refl).
Qed.

(** C4 on the page where the address of the README has been typed and
    submitted, the lookup being in flight. *)
Lemma query_state_invariant_witness :
  reachable Sample.page_loading
  /\ loading (state (world Sample.page_loading)) = true
  /\ error (state (world Sample.page_loading)) = []
  /\ stats (state (world Sample.page_loading)) = JNull.
Proof.
  assert (R : reachable Sample.page_loading).
  { apply (reachable_step Sample.page_typed).
    - apply (reachable_step initial_page).
      + exact reachable_initial.
      + exact (step_type initial_page Sample.valid_address eq_refl).
    - exact (step_submit Sample.page_typed eq_refl). }
  split; [exact R|]. split; [reflexivity|].
  apply (proj1 (proj2 (query_state_invariant Sample.page_loading R))).
  reflexivity.
Defined.

(** C5 on the card of the README, with a capture that fails. *)
Lemma export_restores_button_witness :
  statsCardRef Sample.world_loaded = Some Sample.readme_card
  /\ Json.truthy (stats (state Sample.world_loaded)) = true
  /\ exists w' tr,
       run Sample.env_failing App.handleSaveClick Sample.world_loaded
       = (w', tr, Normal tt)
       /\ isGeneratingImage (state w') = false
       /\ visible w' 7%nat = true.
Proof.
  split; [reflexivity|]. split; [reflexivity|].
  destruct (proj1 (export_restores_button Sample.env_failing Sample.world_loaded
                     Sample.readme_card eq_refl eq_refl))
    as (w' & tr & Hrun & Hflag & Hshown & _).
  exists w', tr. split; [exact Hrun|]. split; [exact Hflag|].
  apply Hshown. reflexivity.
Defined.

(** C8 on the card of the README. *)
Lemma export_saves_png_witness :
  statsCardRef Sample.world_loaded = Some Sample.readme_card
  /\ Json.get (lit "address") (stats (state Sample.world_loaded))
     = Some (JString Sample.valid_address)
  /\ snd (fst (run (Sample.env_answering JNull) App.handleSaveClick
                 Sample.world_loaded))
     = [Issue (Html2Canvas Sample.readme_card (App.png_options Sample.readme_card));
        LinkClick (lit "wallet-stats-0xABCABC.png")
          (lit "data:image/png;base64,iVBORw0KGgo=")].
Proof.
  split; [reflexivity|]. split; [reflexivity|].
  apply (proj2 (export_saves_png (Sample.env_answering JNull) Sample.world_loaded
                  Sample.readme_card Sample.png_canvas Sample.valid_address
                  (lit "data:image/png;base64,iVBORw0KGgo=")
                  eq_refl eq_refl eq_refl eq_refl)).
Defined.

(** C10 before anything has loaded. *)
Lemma export_without_card_witness :
  statsCardRef initial_world = None
  /\ run Sample.env_failing App.handleSaveClick initial_world
     = (initial_world, [], Normal tt).
Proof.
  split; [reflexivity|].
  apply (proj1 (export_without_card Sample.env_failing initial_world
                  (or_introl eq_refl))).
Defined.

(** * Further properties of the code *)

(** ** White space and the shape of an address *)

Section WhiteSpace.

(** No character from [!] to the end of the C1 controls is white space. *)
Lemma printable_not_white_space (c : char16) :
  (33 <= c <= 159)%N -> is_white_space c = false.
Proof.
  intros [Hlo Hhi]. unfold is_white_space.
  replace (c <=? 13)%N with false by (symmetry; apply N.leb_gt; lia).
  replace (c =? 32)%N with false by (symmetry; apply N.eqb_neq; lia).
  replace (c =? 160)%N with false by (symmetry; apply N.eqb_neq; lia).
  replace (c =? 5760)%N with false by (symmetry; apply N.eqb_neq; lia).
  replace (8192 <=? c)%N with false by (symmetry; apply N.leb_gt; lia).
  replace (c =? 8232)%N with false by (symmetry; apply N.eqb_neq; lia).
  replace (c =? 8233)%N with false by (symmetry; apply N.eqb_neq; lia).
  replace (c =? 8239)%N with false by (symmetry; apply N.eqb_neq; lia).
  replace (c =? 8287)%N with false by (symmetry; apply N.eqb_neq; lia).
  replace (c =? 12288)%N with false by (symmetry; apply N.eqb_neq; lia).
  replace (c =? 65279)%N with false by (symmetry; apply N.eqb_neq; lia).
  rewrite !andb_false_r. reflexivity.
Qed.

Lemma hex_digit_range (c : char16) :
  is_hex_digit c = true -> (48 <= c <= 102)%N.
Proof.
  unfold is_hex_digit, is_digit. intros H.
  repeat (apply orb_true_iff in H; destruct H as [H|H]);
    apply andb_true_iff in H; destruct H as [H1 H2];
    apply N.leb_le in H1; apply N.leb_le in H2; lia.
Qed.

Lemma hex_digit_not_white_space (c : char16) :
  is_hex_digit c = true -> is_white_space c = false.
Proof.
  intros H. apply printable_not_white_space.
  pose proof (hex_digit_range c H). lia.
Qed.

Lemma trimStart_nil (s : jsstr) :
  trimStart s = [] <-> forallb is_white_space s = true.
Proof.
  induction s as [|c s IH]; cbn; [tauto|].
  destruct (is_white_space c); cbn; [exact IH|].
  split; discriminate.
Qed.

Lemma trimStart_head (s : jsstr) (c : char16) (r : jsstr) :
  trimStart s = c :: r -> is_white_space c = false.
Proof.
  induction s as [|d s IH]; cbn; [discriminate|].
  destruct (is_white_space d) eqn:Hd; [exact IH|].
  intros [= -> _]. exact Hd.
Qed.

Lemma trimStart_fixed (c : char16) (r : jsstr) :
  is_white_space c = false -> trimStart (c :: r) = c :: r.
Proof. intros H. cbn. rewrite H. reflexivity. Qed.

Lemma forallb_rev_white (s : jsstr) :
  forallb is_white_space (rev s) = forallb is_white_space s.
Proof.
  induction s as [|c s IH]; [reflexivity|].
  cbn [rev]. rewrite forallb_app, IH. cbn. rewrite andb_true_r. apply andb_comm.
Qed.

(** The trimmed string is empty exactly when every character of the string
    is white space. *)
Lemma trim_empty (s : jsstr) :
  truthy (trim s) = negb (forallb is_white_space s).
Proof.
  unfold trim, trimEnd.
  destruct (forallb is_white_space s) eqn:Hall; cbn [negb].
  - rewrite (proj2 (trimStart_nil s) Hall). reflexivity.
  - destruct (trimStart s) as [|c r] eqn:Hs.
    + apply trimStart_nil in Hs. congruence.
    + pose proof (trimStart_head _ _ _ Hs) as Hc.
      destruct (trimStart (rev (c :: r))) as [|d t] eqn:Hr.
      * apply trimStart_nil in Hr. rewrite forallb_rev_white in Hr.
        cbn in Hr. rewrite Hc in Hr. discriminate.
      * cbn [rev]. destruct (rev t); reflexivity.
Qed.

(** A string that begins and ends with characters that are not white space
    is its own trimmed form. *)
Lemma trim_fixed (c : char16) (r : jsstr) :
  is_white_space c = false ->
  is_white_space (last r c) = false ->
  trim (c :: r) = c :: r.
Proof.
  intros Hc Hlast. unfold trim, trimEnd. rewrite (trimStart_fixed _ _ Hc).
  destruct (rev (c :: r)) as [|d t] eqn:Hrev.
  - apply (f_equal (@List.length _)) in Hrev. rewrite length_rev in Hrev.
    discriminate.
  - assert (Hd : d = last r c).
    { assert (H : rev (d :: t) = c :: r)
        by (rewrite <- Hrev; apply rev_involutive).
      cbn [rev] in H.
      assert (Hl : last (c :: r) c = d)
        by (rewrite <- H; apply last_last).
      rewrite <- Hl. destruct r; reflexivity. }
    rewrite trimStart_fixed by (rewrite Hd; exact Hlast).
    rewrite <- Hrev. apply rev_involutive.
Qed.

Lemma forallb_last {A} (f : A -> bool) (x : A) (l : list A) (d : A) :
  forallb f (x :: l) = true -> f (last (x :: l) d) = true.
Proof.
  revert x. induction l as [|y l IH]; intros x H; cbn [forallb] in H;
    apply andb_true_iff in H; destruct H as [Hx Hl].
  - exact Hx.
  - change (f (last (y :: l) d) = true). apply IH. exact Hl.
Qed.

Lemma forallb_firstn {A} (f : A -> bool) (n : nat) (l : list A) :
  forallb f l = true -> forallb f (firstn n l) = true.
Proof.
  revert l. induction n as [|n IH]; intros [|x l] H; try reflexivity.
  cbn in *. apply andb_true_iff in H. destruct H as [Hx Hl].
  rewrite Hx. cbn. apply IH, Hl.
Qed.

(** What the pattern [/^0x[a-fA-F0-9]{40}$/] accepts. *)
Lemma valid_address_shape (a : jsstr) :
  App.isValidAddress a = true ->
  exists digits,
    a = lit "0x" ++ digits
    /\ List.length digits = 40%nat
    /\ forallb is_hex_digit digits = true.
Proof.
  destruct a as [|c0 [|c1 digits]]; cbn; try discriminate.
  intros H. repeat (apply andb_true_iff in H; destruct H as [H ?]).
  apply N.eqb_eq in H. apply N.eqb_eq in H2. apply Nat.eqb_eq in H1.
  subst. exists digits. auto.
Qed.

(** A valid address has no white space around it. *)
Lemma valid_address_trimmed (a : jsstr) :
  App.isValidAddress a = true -> trim a = a.
Proof.
  intros H. destruct (valid_address_shape a H) as (digits & -> & Hlen & Hhex).
  change (lit "0x" ++ digits) with (48%N :: 120%N :: digits).
  apply trim_fixed; [reflexivity|].
  destruct digits as [|d ds]; [discriminate|].
  change (is_white_space (last (d :: ds) 48%N) = false).
  apply hex_digit_not_white_space, forallb_last, Hhex.
Qed.

End WhiteSpace.

(** ** More on the submission *)

Section Lookups.

Variable env : environment.

(** X1. An input of white space only is answered like the empty input, and
    any other input whose trimmed form is not an address with the second
    message; either way the submission ends at once, without a request. *)
Theorem rejection_message (w : World) :
  forallb is_white_space (walletAddress (state w)) = true
  \/ App.isValidAddress (trim (walletAddress (state w))) = false ->
  exists w',
    run env App.handleSubmit w = (w', [], Normal tt)
    /\ error (state w')
       = if forallb is_white_space (walletAddress (state w))
         then lit "Please enter a wallet address"
         else lit "Please enter a valid Ethereum wallet address".
Proof.
  intros H. unfold App.handleSubmit. cbn [run].
  pose proof (trim_empty (walletAddress (state w))) as Ht.
  destruct (forallb is_white_space (walletAddress (state w))); cbn [negb] in Ht.
  - rewrite (fetchWalletStats_empty _ Ht). eexists. split; reflexivity.
  - destruct H as [H|H]; [discriminate|].
    rewrite (fetchWalletStats_invalid _ Ht H). eexists. split; reflexivity.
Qed.

(** X2. An input that matches the pattern as it is typed has nothing to
    trim, and is looked up verbatim: the one request of the run is for the
    URL of the collaborator followed by the input. *)
Theorem valid_input_fetched_verbatim (w : World) :
  App.isValidAddress (walletAddress (state w)) = true ->
  trim (walletAddress (state w)) = walletAddress (state w)
  /\ fetched (snd (fst (run env App.handleSubmit w)))
     = [lit "https://donkey-api.liquidlaunch.app/api/wallet/"
        ++ walletAddress (state w)].
Proof.
  intros Hv. pose proof (valid_address_trimmed _ Hv) as Htrim.
  split; [exact Htrim|].
  unfold App.handleSubmit. cbn [run].
  unfold App.fetchWalletStats. rewrite Htrim, Hv.
  rewrite (valid_address_not_empty _ Hv). cbn [negb]. cbn.
  settle env; reflexivity.
Qed.

(** X3. Whatever is typed, a URL that the submission requests is the path
    of the collaborator followed by [0x] and forty hexadecimal digits, which
    are the trimmed input: nothing else of the input reaches the network. *)
Theorem fetch_only_valid_addresses (w : World) (url : jsstr) :
  In url (fetched (snd (fst (run env App.handleSubmit w)))) ->
  exists digits,
    url = lit "https://donkey-api.liquidlaunch.app/api/wallet/0x" ++ digits
    /\ List.length digits = 40%nat
    /\ forallb is_hex_digit digits = true
    /\ trim (walletAddress (state w)) = lit "0x" ++ digits.
Proof.
  unfold App.handleSubmit. cbn [run].
  destruct (App.isValidAddress (trim (walletAddress (state w)))) eqn:Hv.
  - destruct (valid_address_shape _ Hv) as (digits & Hshape & Hlen & Hhex).
    pose proof (valid_address_not_empty _ Hv) as Ht.
    unfold App.fetchWalletStats. rewrite Ht, Hv. cbn [negb]. cbn.
    rewrite Hshape.
    settle env; cbn; intros [<-|[]]; exists digits; repeat split; assumption.
  - rewrite (fetchWalletStats_rejects _ Hv). cbn. intros [].
Qed.

(** X4. The body of the response is read exactly when the status is a
    success: after the fetch, [response.json()] is the one further request
    of a run whose response is [ok], and there is none otherwise. *)
Theorem body_read_on_success_only (w : World) :
  App.isValidAddress (trim (walletAddress (state w))) = true ->
  snd (fst (run env App.handleSubmit w))
  = Issue (Fetch (lit "https://donkey-api.liquidlaunch.app/api/wallet/"
                  ++ trim (walletAddress (state w))))
    :: match env _ (Fetch (lit "https://donkey-api.liquidlaunch.app/api/wallet/"
                           ++ trim (walletAddress (state w)))) with
       | Normal r => if ok r then [Issue (ResponseJson r)] else []
       | Abrupt _ => []
       end.
Proof.
  intros Hv. pose proof (valid_address_not_empty _ Hv) as Ht.
  unfold App.handleSubmit, App.fetchWalletStats.
  cbn [run]. rewrite Ht, Hv. cbn [negb]. cbn.
  change (App.api_url (trim (walletAddress (state w))))
    with (lit "https://donkey-api.liquidlaunch.app/api/wallet/"
          ++ trim (walletAddress (state w))).
  destruct (env Response _) as [[[|]]|t]; cbn; [|reflexivity|reflexivity].
  destruct (env json _); reflexivity.
Qed.

(** X5. What a submission of a valid address leaves depends on the address
    and on the answers of the collaborator only: from two worlds with the
    same trimmed input, whatever stats and error they showed before, the
    runs issue the same requests and end with the same stats and the same
    error, and with [loading] cleared. *)
Theorem submission_replaces_outcome (w1 w2 : World) :
  App.isValidAddress (trim (walletAddress (state w1))) = true ->
  trim (walletAddress (state w2)) = trim (walletAddress (state w1)) ->
  stats (state (fst (fst (run env App.handleSubmit w2))))
  = stats (state (fst (fst (run env App.handleSubmit w1))))
  /\ error (state (fst (fst (run env App.handleSubmit w2))))
     = error (state (fst (fst (run env App.handleSubmit w1))))
  /\ loading (state (fst (fst (run env App.handleSubmit w2)))) = false
  /\ loading (state (fst (fst (run env App.handleSubmit w1)))) = false
  /\ snd (fst (run env App.handleSubmit w2))
     = snd (fst (run env App.handleSubmit w1)).
Proof.
  intros Hv Hsame. pose proof (valid_address_not_empty _ Hv) as Ht.
  unfold App.handleSubmit, App.fetchWalletStats.
  cbn [run]. rewrite Hsame, Ht, Hv. cbn [negb]. cbn.
  settle env; repeat split; reflexivity.
Qed.

(** X6. A submission never throws, whatever the input and the answers of
    the collaborator. It issues at most one fetch, clicks no link and logs
    nothing; it leaves the input, the in-progress flag of the export, the
    card reference and the styles as they were; and started with [loading]
    cleared it ends with [loading] cleared. *)
Theorem submit_is_contained (w : World) :
  exists w' tr,
    run env App.handleSubmit w = (w', tr, Normal tt)
    /\ (List.length (fetched tr) <= 1)%nat
    /\ clicked tr = []
    /\ logged tr = []
    /\ walletAddress (state w') = walletAddress (state w)
    /\ isGeneratingImage (state w') = isGeneratingImage (state w)
    /\ statsCardRef w' = statsCardRef w
    /\ display w' = display w
    /\ (loading (state w) = false -> loading (state w') = false).
Proof.
  unfold App.handleSubmit. cbn [run].
  destruct (App.isValidAddress (trim (walletAddress (state w)))) eqn:Hv.
  - pose proof (valid_address_not_empty _ Hv) as Ht.
    unfold App.fetchWalletStats. rewrite Ht, Hv. cbn [negb]. cbn.
    settle env; eexists; eexists; (split; [reflexivity|]); cbn;
      repeat split; auto.
  - rewrite (fetchWalletStats_rejects _ Hv). cbn.
    eexists; eexists; (split; [reflexivity|]); cbn; repeat split; auto.
Qed.

End Lookups.

(** ** More on the export *)

Section SavedImage.

Variable env : environment.

(** X9. An export never throws and never reaches the network, in any world
    and whatever the capture does: no fetch is issued, at most one thing is
    done with the result (a link is clicked or a fault is logged), the
    input, the stats, [loading], the error and the card reference are as
    before, and started with the in-progress flag cleared it ends with the
    flag cleared. *)
Theorem export_is_contained (w : World) :
  exists w' tr,
    run env App.handleSaveClick w = (w', tr, Normal tt)
    /\ fetched tr = []
    /\ (List.length (clicked tr) + List.length (logged tr) <= 1)%nat
    /\ walletAddress (state w') = walletAddress (state w)
    /\ stats (state w') = stats (state w)
    /\ loading (state w') = loading (state w)
    /\ error (state w') = error (state w)
    /\ statsCardRef w' = statsCardRef w
    /\ (isGeneratingImage (state w) = false ->
        isGeneratingImage (state w') = false).
Proof.
  destruct (statsCardRef w) as [card|] eqn:Hcard.
  - destruct (Json.truthy (stats (state w))) eqn:Hstats.
    + destruct (run_export env w card Hcard Hstats)
        as (w' & Hrun & Hflag & _ & _ & Ha & Hs & Hl & He & Hr & _).
      exists w'. eexists. split; [exact Hrun|].
      rewrite <- Hcard.
      destruct (capture env card (stats (state w))) as [[download href]|t];
        cbn; repeat split; auto.
    + exists w, []. rewrite (export_skipped env w (or_intror Hstats)).
      cbn. repeat split; auto.
  - exists w, []. rewrite (export_skipped env w (or_introl Hcard)).
    cbn. repeat split; auto.
Qed.

(** X10. When the stats on the card carry a valid address, the file that a
    successful export saves is named [wallet-stats-0x], six hexadecimal
    digits of the address, [.png] : no character of the name is a path
    separator or a dot before the extension. *)
Theorem export_name_of_valid_address (w : World) (card : CardNode)
    (canvas : Canvas) (a href : jsstr) :
  statsCardRef w = Some card ->
  Json.get (lit "address") (stats (state w)) = Some (JString a) ->
  App.isValidAddress a = true ->
  env _ (Html2Canvas card (App.png_options card)) = Normal canvas ->
  toDataURL canvas (lit "image/png") = Normal href ->
  exists digits,
    clicked (snd (fst (run env App.handleSaveClick w)))
    = [(lit "wallet-stats-0x" ++ digits ++ lit ".png", href)]
    /\ List.length digits = 6%nat
    /\ forallb is_hex_digit digits = true
    /\ lit "0x" ++ digits = firstn 8 a.
Proof.
  intros Hcard Haddr Hvalid Hcanvas Hurl.
  assert (Hstats : Json.truthy (stats (state w)) = true).
  { destruct (stats (state w)); try discriminate. reflexivity. }
  destruct (valid_address_shape a Hvalid) as (ds & -> & Hlen & Hhex).
  destruct (run_export env w card Hcard Hstats) as (w' & -> & _).
  cbn [fst snd]. unfold capture, App.download_name.
  rewrite Hcanvas, Haddr. cbn. rewrite Hurl. cbn.
  exists (firstn 6 ds). repeat split.
  - rewrite length_firstn, Hlen. reflexivity.
  - apply forallb_firstn, Hhex.
Qed.


(** X12. The file is named after the stats of the render in which the save
    button was clicked: once the export waits for the capture, it is
    resumed in whatever world the page is in by then (other stats, no
    stats, the card unmounted), and with a canvas that encodes it clicks
    one link, named after the first eight characters of the address it
    started with, and ends without throwing. *)
Theorem export_names_stats_at_click (w : World) (card : CardNode) (a : jsstr) :
  statsCardRef w = Some card ->
  Json.get (lit "address") (stats (state w)) = Some (JString a) ->
  exists k,
    snd (start App.handleSaveClick w)
    = Suspended (Html2Canvas card (App.png_options card)) k
    /\ forall (canvas : Canvas) (href : jsstr) (w' : World),
         toDataURL canvas (lit "image/png") = Normal href ->
         exists w2,
           start (k (Normal canvas)) w'
           = (w2,
              [LinkClick (lit "wallet-stats-" ++ firstn 8 a ++ lit ".png") href],
              Done (Normal tt))
           /\ isGeneratingImage (state w2) = false.
Proof.
  intros Hcard Haddr.
  assert (Hstats : Json.truthy (stats (state w)) = true).
  { destruct (stats (state w)); try discriminate. reflexivity. }
  assert (Hname : App.download_name (stats (state w))
                  = Normal (lit "wallet-stats-" ++ firstn 8 a ++ lit ".png")).
  { unfold App.download_name. rewrite Haddr. reflexivity. }
  unfold App.handleSaveClick, App.downloadStatsImage.
  cbn [start]. rewrite Hcard, Hstats. cbn [negb].
  destruct (saveButton card) as [b|] eqn:Hb; cbn; rewrite Hcard; cbn;
    eexists; (split; [reflexivity|]);
    intros canvas href w' Hurl; cbn; rewrite Hname; cbn; rewrite Hurl; cbn;
    eexists; split; reflexivity.
Qed.

End SavedImage.

(** ** One request of each kind at a time *)

Section FlightFacts.

Variable own : forall T : Type, request T -> bool.
Variable flag : World -> bool.

Hypothesis flag_commit : forall ref w, flag (commit ref w) = flag w.
Hypothesis type_ok : forall text w, other_safe own flag (App.setWalletAddress text) w.
Hypothesis submit_ok :
  forall w, loading (state w) = false -> handler_ok own flag App.handleSubmit w.
Hypothesis save_ok :
  forall w, isGeneratingImage (state w) = false -> handler_ok own flag App.handleSaveClick w.

Lemma keeps_flag_refl (w : World) : keeps_flag flag w w.
Proof. reflexivity. Qed.

Lemma keeps_flag_trans (w1 w2 w3 : World) :
  keeps_flag flag w1 w2 -> keeps_flag flag w2 w3 -> keeps_flag flag w1 w3.
Proof. unfold keeps_flag. congruence. Qed.

Lemma in_flight_count_app (ts us : list task) :
  in_flight_count own (ts ++ us)
  = (in_flight_count own ts + in_flight_count own us)%nat.
Proof. unfold in_flight_count. rewrite filter_app, length_app. reflexivity. Qed.

Lemma in_flight_count_cons (t : task) (ts : list task) :
  in_flight_count own (t :: ts)
  = ((if own_task own t then 1 else 0) + in_flight_count own ts)%nat.
Proof.
  unfold in_flight_count. cbn [filter]. destruct (own_task own t); reflexivity.
Qed.

Lemma flight_task_keeps (w w' : World) (t : task) :
  keeps_flag flag w w' -> flight_task_safe own flag w t ->
  flight_task_safe own flag w' t.
Proof.
  intros Hkeep. destruct t as [T q k]. cbn [flight_task_safe].
  destruct (own T q); [|auto].
  intros [Hset Hk]. split; [unfold keeps_flag in Hkeep; congruence|].
  intros r w'' Hkeep'. apply Hk. eapply keeps_flag_trans; eassumption.
Qed.

Lemma flight_tasks_idle (w w' : World) (ts : list task) :
  in_flight_count own ts = 0%nat ->
  Forall (flight_task_safe own flag w) ts ->
  Forall (flight_task_safe own flag w') ts.
Proof.
  induction ts as [|t ts IH]; intros Hnone Hsafe; [constructor|].
  rewrite in_flight_count_cons in Hnone.
  inversion Hsafe as [|? ? Ht Hts]; subst. constructor.
  - destruct t as [T q k]. cbn [flight_task_safe own_task] in *.
    destruct (own T q); [discriminate|exact Ht].
  - apply IH; [lia|exact Hts].
Qed.

(** The owner of the flag, started or resumed while none of its requests
    waits. *)
Lemma dispatch_owner (Q : World -> Prop) (p : Prog unit) (w : World)
    (others : list task) :
  (forall w', Q w' -> flag w' = false) ->
  owner_safe own flag Q p w ->
  in_flight_count own others = 0%nat ->
  Forall (flight_task_safe own flag w) others ->
  flight_invariant own flag (dispatch p w others).
Proof.
  intros HQ Hsafe Hnone Hothers.
  destruct (safe_start _ _ _ _ (fun _ => I) (fun _ _ _ _ _ => I) _ _ _ _ Hsafe)
    as [_ Hstart].
  pose proof (world_dispatch p w others) as Hw.
  pose proof (pending_dispatch p w others) as Hp.
  destruct (snd (start p w)) as [c|T q k].
  - pose proof (HQ _ Hstart) as Hidle. rewrite <- Hw in Hidle.
    constructor; rewrite ?Hp.
    + eapply flight_tasks_idle; eassumption.
    + auto.
    + congruence.
  - destruct Hstart as (Hkind & Hset & Hk). rewrite <- Hw in Hset, Hk.
    constructor; rewrite ?Hp.
    + constructor.
      * cbn [flight_task_safe]. rewrite Hkind. split; assumption.
      * eapply flight_tasks_idle; eassumption.
    + congruence.
    + intros _. rewrite in_flight_count_cons. cbn [own_task]. rewrite Hkind. lia.
Qed.

(** A handler that keeps the flag, started or resumed at any time. *)
Lemma dispatch_other (p : Prog unit) (w : World) (others : list task) :
  other_safe own flag p w ->
  Forall (flight_task_safe own flag w) others ->
  (flag w = false -> in_flight_count own others = 0%nat) ->
  (flag w = true -> in_flight_count own others = 1%nat) ->
  flight_invariant own flag (dispatch p w others).
Proof.
  intros Hsafe Hothers Hidle Hbusy.
  destruct (safe_start _ _ _ _ keeps_flag_refl keeps_flag_trans _ _ _ _ Hsafe)
    as [Hkeep Hstart].
  pose proof (world_dispatch p w others) as Hw.
  pose proof (pending_dispatch p w others) as Hp.
  rewrite <- Hw in Hkeep.
  assert (Hothers' : Forall (flight_task_safe own flag (world (dispatch p w others)))
                            others).
  { eapply Forall_impl; [|exact Hothers].
    intros t. apply flight_task_keeps. exact Hkeep. }
  unfold keeps_flag in Hkeep.
  destruct (snd (start p w)) as [c|T q k].
  - constructor; rewrite ?Hp; auto.
    + intros H. apply Hidle. congruence.
    + intros H. apply Hbusy. congruence.
  - destruct Hstart as (Hkind & _ & Hk). apply negb_true_iff in Hkind.
    constructor; rewrite ?Hp.
    + constructor; [|exact Hothers'].
      cbn [flight_task_safe]. rewrite Hkind. intros r w'. apply Hk. exact I.
    + intros H. rewrite in_flight_count_cons. cbn [own_task]. rewrite Hkind.
      cbn. apply Hidle. congruence.
    + intros H. rewrite in_flight_count_cons. cbn [own_task]. rewrite Hkind.
      cbn. apply Hbusy. congruence.
Qed.

Lemma dispatch_handler (p : Prog unit) (pg : Page) :
  flight_invariant own flag pg -> handler_ok own flag p (world pg) ->
  flight_invariant own flag (dispatch p (world pg) (pending pg)).
Proof.
  intros [Hsafe Hidle Hbusy] [Hother | [Hclear Howner]].
  - apply dispatch_other; assumption.
  - eapply dispatch_owner with (Q := fun w' => flag w' = false); auto.
Qed.

Lemma step_flight (pg pg' : Page) :
  flight_invariant own flag pg -> step pg pg' -> flight_invariant own flag pg'.
Proof.
  intros Hinv Hstep.
  destruct Hstep as [pg text Hguard | pg Hguard | pg Hflag Hstats
                    | pg T q k r before after Hpending | pg ref].
  - apply dispatch_handler; [exact Hinv|left; apply type_ok].
  - apply dispatch_handler; [exact Hinv|apply submit_ok, Hguard].
  - apply dispatch_handler; [exact Hinv|apply save_ok, Hflag].
  - destruct Hinv as [Hsafe Hidle Hbusy].
    assert (Hcount : in_flight_count own (pending pg)
                     = (in_flight_count own before + in_flight_count own after
                        + if own T q then 1 else 0)%nat).
    { rewrite Hpending, in_flight_count_app, in_flight_count_cons.
      cbn [own_task]. lia. }
    rewrite Hpending in Hsafe.
    apply Forall_app in Hsafe. destruct Hsafe as [Hbefore Hrest].
    inversion Hrest as [|? ? Ht Hafter]; subst.
    assert (Hothers : Forall (flight_task_safe own flag (world pg)) (before ++ after))
      by (apply Forall_app; split; assumption).
    cbn [flight_task_safe] in Ht.
    destruct (own T q) eqn:Hkind.
    + destruct Ht as [Hset Hk].
      eapply dispatch_owner with (Q := fun w' => flag w' = false); auto.
      * apply Hk, keeps_flag_refl.
      * specialize (Hbusy Hset). rewrite in_flight_count_app. lia.
    + apply dispatch_other; auto.
      * intros H. specialize (Hidle H). rewrite in_flight_count_app. lia.
      * intros H. specialize (Hbusy H). rewrite in_flight_count_app. lia.
  - destruct Hinv as [Hsafe Hidle Hbusy].
    constructor; cbn [world pending]; rewrite ?flag_commit; auto.
    eapply Forall_impl; [|exact Hsafe].
    intros t. apply flight_task_keeps. unfold keeps_flag.
    apply flag_commit.
Qed.

Lemma initial_flight :
  flag initial_world = false -> flight_invariant own flag initial_page.
Proof. intros H. constructor; cbn; auto. congruence. Qed.

Lemma reachable_flight (pg : Page) :
  flag initial_world = false -> reachable pg -> flight_invariant own flag pg.
Proof.
  intros Hinit. induction 1 as [|pg pg' _ IH Hstep];
    [exact (initial_flight Hinit) | eapply step_flight; eassumption].
Qed.

End FlightFacts.

(** The two flags of the page and their handlers. *)
Ltac flag_auto :=
  repeat match goal with
         | |- _ /\ _ => split
         | |- True => exact I
         | |- keeps_flag _ _ _ => reflexivity
         | |- negb _ = true => reflexivity
         | |- true = true => reflexivity
         | |- is_lookup _ = true => reflexivity
         | |- is_capture _ = true => reflexivity
         | |- _ = _ => reflexivity
         end.


Lemma submit_owns_loading (w : World) :
  loading (state w) = false ->
  handler_ok (@is_lookup) loading_flag App.handleSubmit w.
Proof.
  intros Hidle. right. split; [exact Hidle|].
  unfold owner_safe, App.handleSubmit. cbn [safe].
  destruct (App.isValidAddress (trim (walletAddress (state w)))) eqn:Hv.
  - pose proof (valid_address_not_empty _ Hv) as Ht.
    unfold App.fetchWalletStats. rewrite Ht, Hv. cbn [negb]. cbn.
    flag_auto.
    intros r w1 Hkeep. unfold keeps_flag in Hkeep. cbn in Hkeep.
    destruct r as [[[|]]|t]; cbn; flag_auto; try exact Hkeep.
    intros r2 w2 Hkeep2. destruct r2 as [data|t]; cbn; flag_auto.
  - rewrite (fetchWalletStats_rejects _ Hv). cbn. split; [exact I|exact Hidle].
Qed.

Lemma submit_keeps_exporting (w : World) :
  handler_ok (@is_capture) exporting_flag App.handleSubmit w.
Proof.
  left. unfold other_safe, App.handleSubmit. cbn [safe].
  destruct (App.isValidAddress (trim (walletAddress (state w)))) eqn:Hv.
  - pose proof (valid_address_not_empty _ Hv) as Ht.
    unfold App.fetchWalletStats. rewrite Ht, Hv. cbn [negb]. cbn.
    flag_auto.
    intros r w1 _. destruct r as [[[|]]|t]; cbn; flag_auto.
    intros r2 w2 _. destruct r2 as [data|t]; cbn; flag_auto.
  - rewrite (fetchWalletStats_rejects _ Hv). cbn. flag_auto.
Qed.

Lemma save_keeps_loading (w : World) :
  handler_ok (@is_lookup) loading_flag App.handleSaveClick w.
Proof.
  left. unfold other_safe, App.handleSaveClick, App.downloadStatsImage.
  cbn [safe].
  destruct (statsCardRef w) as [card|] eqn:Hcard; [|exact I].
  destruct (Json.truthy (stats (state w))); cbn [negb]; [|exact I].
  destruct (saveButton card) as [b|]; cbn; rewrite Hcard; cbn;
    flag_auto;
    intros r w' _; destruct r as [canvas|t]; cbn;
    try (destruct (App.download_name (stats (state w))) as [d|t]; cbn;
         try (destruct (toDataURL canvas (lit "image/png")) as [h|t]; cbn));
    flag_auto.
Qed.

Lemma save_owns_exporting (w : World) :
  isGeneratingImage (state w) = false ->
  handler_ok (@is_capture) exporting_flag App.handleSaveClick w.
Proof.
  intros Hidle. right. split; [exact Hidle|].
  unfold owner_safe, App.handleSaveClick, App.downloadStatsImage.
  cbn [safe].
  destruct (statsCardRef w) as [card|] eqn:Hcard; [|exact Hidle].
  destruct (Json.truthy (stats (state w))); cbn [negb]; [|exact Hidle].
  destruct (saveButton card) as [b|]; cbn; rewrite Hcard; cbn;
    flag_auto;
    intros r w' _; destruct r as [canvas|t]; cbn;
    try (destruct (App.download_name (stats (state w))) as [d|t]; cbn;
         try (destruct (toDataURL canvas (lit "image/png")) as [h|t]; cbn));
    flag_auto.
Qed.

Lemma type_keeps_flags (text : jsstr) (w : World) :
  other_safe (@is_lookup) loading_flag (App.setWalletAddress text) w
  /\ other_safe (@is_capture) exporting_flag (App.setWalletAddress text) w.
Proof. split; unfold other_safe; cbn; flag_auto. Qed.

Lemma lookup_flight (pg : Page) :
  reachable pg -> flight_invariant (@is_lookup) loading_flag pg.
Proof.
  intros Hreach.
  exact (reachable_flight (@is_lookup) loading_flag
           (fun _ _ => eq_refl)
           (fun text w => proj1 (type_keeps_flags text w))
           submit_owns_loading
           (fun w _ => save_keeps_loading w)
           pg eq_refl Hreach).
Qed.

Lemma capture_flight (pg : Page) :
  reachable pg -> flight_invariant (@is_capture) exporting_flag pg.
Proof.
  intros Hreach.
  exact (reachable_flight (@is_capture) exporting_flag
           (fun _ _ => eq_refl)
           (fun text w => proj2 (type_keeps_flags text w))
           (fun w _ => submit_keeps_exporting w)
           save_owns_exporting
           pg eq_refl Hreach).
Qed.

(** X7. In every state the page can reach, exactly one lookup waits for
    the network while [loading] is set, and none while it is cleared: the
    spinner is never shown without a request behind it, and two lookups
    are never outstanding together. *)
Theorem one_lookup_in_flight (pg : Page) :
  reachable pg ->
  (loading (state (world pg)) = true -> lookups (pending pg) = 1%nat)
  /\ (loading (state (world pg)) = false -> lookups (pending pg) = 0%nat).
Proof.
  intros Hreach. destruct (lookup_flight pg Hreach) as [_ Hidle Hbusy].
  split; [exact Hbusy|exact Hidle].
Qed.

(** X8. In every state the page can reach, exactly one capture is pending
    while [isGeneratingImage] is set, and none while it is cleared: two
    exports never run together, whatever else the page does meanwhile. *)
Theorem one_capture_in_flight (pg : Page) :
  reachable pg ->
  (isGeneratingImage (state (world pg)) = true -> captures (pending pg) = 1%nat)
  /\ (isGeneratingImage (state (world pg)) = false ->
      captures (pending pg) = 0%nat).
Proof.
  intros Hreach. destruct (capture_flight pg Hreach) as [_ Hidle Hbusy].
  split; [exact Hbusy|exact Hidle].
Qed.

(** ** What the page shows *)

Section Rendering.

Variable env : environment.

(** X13. In every state the page can reach, while [loading] is set the
    page shows the input and the submit button disabled, the button
    labelled [Analyzing...], no error banner and no card: nothing of an
    earlier lookup stays on display. *)
Theorem loading_view (pg : Page) :
  reachable pg -> loading (state (world pg)) = true ->
  Render.view (state (world pg))
  = {| Render.input_value := walletAddress (state (world pg));
       Render.input_disabled := true;
       Render.submit_disabled := true;
       Render.submit_label := lit "Analyzing...";
       Render.error_banner := None;
       Render.card := Render.NoCard |}.
Proof.
  intros Hreach Hl.
  destruct (loading_is_in_flight pg (reachable_invariant pg Hreach) Hl)
    as (_ & He & Hs).
  unfold Render.view. rewrite Hl, He, Hs. reflexivity.
Qed.

(** X14. Whenever the submit button is enabled, the input holds more than
    white space and no lookup is loading; the submission then either
    issues the lookup of the trimmed input, or reports that the address is
    not valid: the message for an empty input cannot be reached through
    the button. *)
Theorem enabled_submit_is_not_blank (w : World) :
  Render.submit_disabled (Render.view (state w)) = false ->
  loading (state w) = false
  /\ forallb is_white_space (walletAddress (state w)) = false
  /\ ((App.isValidAddress (trim (walletAddress (state w))) = true
       /\ fetched (snd (fst (run env App.handleSubmit w)))
          = [lit "https://donkey-api.liquidlaunch.app/api/wallet/"
             ++ trim (walletAddress (state w))])
      \/ (App.isValidAddress (trim (walletAddress (state w))) = false
          /\ exists w',
               run env App.handleSubmit w = (w', [], Normal tt)
               /\ error (state w')
                  = lit "Please enter a valid Ethereum wallet address")).
Proof.
  unfold Render.view. cbn [Render.submit_disabled]. intros H.
  apply orb_false_iff in H. destruct H as [Hl Ht].
  apply negb_false_iff in Ht.
  split; [exact Hl|]. split.
  - rewrite trim_empty in Ht. apply negb_true_iff in Ht. exact Ht.
  - unfold App.handleSubmit. cbn [run].
    destruct (App.isValidAddress (trim (walletAddress (state w)))) eqn:Hv.
    + left. split; [reflexivity|].
      unfold App.fetchWalletStats. rewrite Ht, Hv. cbn [negb]. cbn.
      settle env; reflexivity.
    + right. split; [reflexivity|].
      rewrite (fetchWalletStats_invalid _ Ht Hv). eexists. split; reflexivity.
Qed.

End Rendering.

(** ** The page comes to rest *)

Section Rest.

Lemma settles_within_le (n m : nat) (p : Prog unit) :
  (n <= m)%nat -> settles_within n p -> settles_within m p.
Proof.
  intros Hle. induction p as [a|t|k IH|f k IH|e k IH|T q k IH]; cbn; auto.
  intros [Hlt Hk]. split; [lia|exact Hk].
Qed.

(** Up to its first suspension point a bounded program stays bounded. *)
Lemma start_ranked (n : nat) (p : Prog unit) (w : World) :
  settles_within n p ->
  match snd (start p w) with
  | Done _ => True
  | Suspended q k => (remaining q < n)%nat /\ ranked (Pending q k)
  end.
Proof.
  revert w. induction p as [a|t|k IH|f k IH|e k IH|T q k IH]; intros w H;
    cbn in *.
  - exact I.
  - exact I.
  - exact (IH w w (H w)).
  - exact (IH (f w) H).
  - specialize (IH w H). destruct (start k w) as [[w' tr] pr]. exact IH.
  - exact H.
Qed.

Lemma dispatch_ranked (n : nat) (p : Prog unit) (w : World) (others : list task) :
  settles_within n p -> Forall ranked others ->
  Forall ranked (pending (dispatch p w others))
  /\ (debt (pending (dispatch p w others)) <= n + debt others)%nat.
Proof.
  intros Hp Hothers. pose proof (start_ranked n p w Hp) as Hstart.
  rewrite pending_dispatch.
  destruct (snd (start p w)) as [c|T q k].
  - split; [exact Hothers|lia].
  - destruct Hstart as [Hlt Hk]. split; [constructor; assumption|].
    cbn [debt]. lia.
Qed.

Lemma setWalletAddress_settles (text : jsstr) :
  settles_within 0 (App.setWalletAddress text).
Proof. exact I. Qed.

Lemma handleSubmit_settles : settles_within 2 App.handleSubmit.
Proof.
  unfold App.handleSubmit. cbn [settles_within]. intros w.
  destruct (App.isValidAddress (trim (walletAddress (state w)))) eqn:Hv.
  - pose proof (valid_address_not_empty _ Hv) as Ht.
    unfold App.fetchWalletStats. rewrite Ht, Hv. cbn [negb]. cbn.
    split; [lia|]. intros [[[|]]|t]; cbn; auto.
    split; [lia|]. intros [data|t]; cbn; auto.
  - rewrite (fetchWalletStats_rejects _ Hv). exact I.
Qed.

Lemma handleSaveClick_settles : settles_within 1 App.handleSaveClick.
Proof.
  unfold App.handleSaveClick, App.downloadStatsImage. cbn [settles_within].
  intros w w0. destruct (statsCardRef w0) as [card0|]; [|exact I].
  destruct (Json.truthy (stats (state w))); cbn [negb]; [|exact I].
  destruct (saveButton card0) as [b|]; cbn; intros w1;
    (destruct (statsCardRef w1) as [card|]; cbn; [|exact I]);
    (split; [lia|]); intros [canvas|t]; cbn; auto;
    destruct (App.download_name (stats (state w))) as [d|t]; cbn; auto;
    destruct (toDataURL canvas (lit "image/png")) as [h|t]; cbn; auto.
Qed.

Lemma debt_app (ts us : list task) : debt (ts ++ us) = (debt ts + debt us)%nat.
Proof.
  induction ts as [|[T q k] ts IH]; [reflexivity|].
  cbn [app debt]. rewrite IH. lia.
Qed.

(** A settlement keeps the tasks bounded and pays off some of the debt. *)
Lemma settlement_ranked (pg pg' : Page) :
  Forall ranked (pending pg) -> settlement pg pg' ->
  Forall ranked (pending pg')
  /\ (debt (pending pg') < debt (pending pg))%nat.
Proof.
  intros Hr Hs. destruct Hs as [pg T q k r before after Hpending].
  rewrite Hpending in Hr. apply Forall_app in Hr. destruct Hr as [Hb Hrest].
  inversion Hrest as [|? ? Ht Ha]; subst.
  destruct (dispatch_ranked (remaining q) (k r) (world pg) (before ++ after)
              (Ht r) (proj2 (Forall_app _ _ _) (conj Hb Ha))) as [Hall Hdebt].
  split; [exact Hall|].
  rewrite Hpending, debt_app in *. cbn [debt]. lia.
Qed.

Lemma step_ranked (pg pg' : Page) :
  Forall ranked (pending pg) -> step pg pg' -> Forall ranked (pending pg').
Proof.
  intros Hr Hstep.
  destruct Hstep as [pg text Hguard | pg Hguard | pg Hflag Hstats
                    | pg T q k r before after Hpending | pg ref].
  - exact (proj1 (dispatch_ranked 0 _ _ _ (setWalletAddress_settles text) Hr)).
  - exact (proj1 (dispatch_ranked 2 _ _ _ handleSubmit_settles Hr)).
  - exact (proj1 (dispatch_ranked 1 _ _ _ handleSaveClick_settles Hr)).
  - exact (proj1 (settlement_ranked pg _ Hr
                    (settlement_of pg T q k r before after Hpending))).
  - exact Hr.
Qed.

Lemma reachable_ranked (pg : Page) : reachable pg -> Forall ranked (pending pg).
Proof.
  induction 1 as [|pg pg' _ IH Hstep];
    [constructor | eapply step_ranked; eassumption].
Qed.

Lemma settlements_debt (n : nat) (pg pg' : Page) :
  Forall ranked (pending pg) -> settlements n pg pg' ->
  (n + debt (pending pg') <= debt (pending pg))%nat.
Proof.
  intros Hr Hs. induction Hs as [pg|n pg pg' pg'' Hone _ IH]; [lia|].
  destruct (settlement_ranked pg pg' Hr Hone) as [Hr' Hlt].
  specialize (IH Hr'). lia.
Qed.

Lemma settlement_step (pg pg' : Page) : settlement pg pg' -> step pg pg'.
Proof.
  intros [pg0 T q k r before after Hpending].
  exact (step_settle pg0 T q k r before after Hpending).
Qed.

Lemma settlements_reachable (n : nat) (pg pg' : Page) :
  reachable pg -> settlements n pg pg' -> reachable pg'.
Proof.
  intros Hreach Hs. induction Hs as [pg|n pg pg' pg'' Hone _ IH];
    [exact Hreach|].
  apply IH. exact (reachable_step pg pg' Hreach (settlement_step pg pg' Hone)).
Qed.

(** A lookup owes at most two settlements and a capture one. *)
Lemma debt_bound (ts : list task) :
  (debt ts <= 2 * lookups ts + captures ts)%nat.
Proof.
  induction ts as [|[T q k] ts IH]; [cbn; lia|].
  unfold lookups, captures, in_flight_count in *. cbn [debt filter].
  cbn [lookup_task own_task]. unfold is_capture at 1.
  destruct q; cbn [is_lookup negb remaining List.length]; lia.
Qed.

(** In a state the page can reach, at most one lookup and one capture
    wait. *)
Lemma pending_bound (pg : Page) :
  reachable pg ->
  (lookups (pending pg) <= 1)%nat /\ (captures (pending pg) <= 1)%nat.
Proof.
  intros Hreach.
  destruct (lookup_flight pg Hreach) as [_ Hidle Hbusy].
  destruct (capture_flight pg Hreach) as [_ Hidle' Hbusy'].
  change (in_flight_count (@is_lookup) (pending pg))
    with (lookups (pending pg)) in *.
  change (in_flight_count (@is_capture) (pending pg))
    with (captures (pending pg)) in *.
  split.
  - destruct (loading_flag (world pg));
      [rewrite (Hbusy eq_refl)|rewrite (Hidle eq_refl)]; lia.
  - destruct (exporting_flag (world pg));
      [rewrite (Hbusy' eq_refl)|rewrite (Hidle' eq_refl)]; lia.
Qed.

Lemma rest_is_idle (pg : Page) :
  reachable pg -> pending pg = [] ->
  loading (state (world pg)) = false
  /\ isGeneratingImage (state (world pg)) = false.
Proof.
  intros Hreach Hnone.
  destruct (lookup_flight pg Hreach) as [_ _ Hbusy].
  destruct (capture_flight pg Hreach) as [_ _ Hbusy'].
  rewrite Hnone in Hbusy, Hbusy'. unfold loading_flag, exporting_flag in *.
  split.
  - destruct (loading (state (world pg))); [|reflexivity].
    discriminate (Hbusy eq_refl).
  - destruct (isGeneratingImage (state (world pg))); [|reflexivity].
    discriminate (Hbusy' eq_refl).
Qed.

(** X15. From every state the page can reach, with the user doing nothing
    more, the promises that are pending settle at most three times in all,
    in whatever order and with whatever results: two for a lookup and one
    for a capture. Every state on the way is one the page can reach; as
    long as something is pending a settlement is possible; and once nothing
    is pending, [loading] and [isGeneratingImage] are cleared: the page is
    never left with a spinner or a disabled button that nothing will
    reset. *)
Theorem page_comes_to_rest (pg : Page) :
  reachable pg ->
  forall n pg',
    settlements n pg pg' ->
    (n <= 3)%nat
    /\ reachable pg'
    /\ (pending pg' <> [] -> exists pg'', settlement pg' pg'')
    /\ (pending pg' = [] ->
        loading (state (world pg')) = false
        /\ isGeneratingImage (state (world pg')) = false).
Proof.
  intros Hreach n pg' Hs.
  pose proof (settlements_reachable n pg pg' Hreach Hs) as Hreach'.
  split; [|split; [exact Hreach'|split]].
  - pose proof (settlements_debt n pg pg' (reachable_ranked pg Hreach) Hs).
    pose proof (debt_bound (pending pg)).
    destruct (pending_bound pg Hreach). lia.
  - destruct (pending pg') as [|[T q k] rest] eqn:Hp; [congruence|]. intros _.
    eexists.
    exact (settlement_of pg' T q k (Abrupt OtherValue) [] rest Hp).
  - exact (rest_is_idle pg' Hreach').
Qed.

End Rest.

(** ** Further scenarios *)

Lemma reachable_page_loading : reachable Sample.page_loading.
Proof.
  apply (reachable_step Sample.page_typed).
  - apply (reachable_step initial_page).
    + exact reachable_initial.
    + exact (step_type initial_page Sample.valid_address eq_refl).
  - exact (step_submit Sample.page_typed eq_refl).
Qed.

Lemma reachable_page_exporting : reachable Sample.page_exporting.
Proof.
  apply (reachable_step Sample.page_mounted);
    [|exact (step_save Sample.page_mounted eq_refl eq_refl)].
  apply (reachable_step Sample.page_loaded);
    [|exact (step_commit Sample.page_loaded (Some Sample.readme_card))].
  eapply reachable_step; [|apply step_settle_with; discriminate].
  eapply reachable_step; [|apply step_settle_with; discriminate].
  exact reachable_page_loading.
Qed.

(** X1 on three spaces. *)
Lemma rejection_message_witness :
  forallb is_white_space
    (walletAddress (state (Sample.world_typing (lit "   ")))) = true
  /\ exists w',
       run Sample.env_failing App.handleSubmit (Sample.world_typing (lit "   "))
       = (w', [], Normal tt)
       /\ error (state w') = lit "Please enter a wallet address".
Proof.
  split; [reflexivity|].
  exact (rejection_message Sample.env_failing (Sample.world_typing (lit "   "))
           (or_introl eq_refl)).
Defined.

(** X2 on the address of the README. *)
Lemma valid_input_fetched_verbatim_witness :
  App.isValidAddress
    (walletAddress (state (Sample.world_typing Sample.valid_address))) = true
  /\ fetched (snd (fst (run Sample.env_failing App.handleSubmit
                         (Sample.world_typing Sample.valid_address))))
     = [lit "https://donkey-api.liquidlaunch.app/api/wallet/0xABCABCABCABCABCABCABCABCABCABCABCABCABCA"].
Proof.
  split; [reflexivity|].
  exact (proj2 (valid_input_fetched_verbatim Sample.env_failing
                  (Sample.world_typing Sample.valid_address) eq_refl)).
Defined.

(** X3 on the address of the README, typed with a space in front. *)
Lemma fetch_only_valid_addresses_witness :
  In (lit "https://donkey-api.liquidlaunch.app/api/wallet/0xABCABCABCABCABCABCABCABCABCABCABCABCABCA")
     (fetched (snd (fst (run Sample.env_failing App.handleSubmit
                           (Sample.world_typing Sample.padded_address)))))
  /\ exists digits,
       lit "https://donkey-api.liquidlaunch.app/api/wallet/0xABCABCABCABCABCABCABCABCABCABCABCABCABCA"
       = lit "https://donkey-api.liquidlaunch.app/api/wallet/0x" ++ digits
       /\ List.length digits = 40%nat.
Proof.
  assert (H : In (lit "https://donkey-api.liquidlaunch.app/api/wallet/0xABCABCABCABCABCABCABCABCABCABCABCABCABCA")
                 (fetched (snd (fst (run Sample.env_failing App.handleSubmit
                                       (Sample.world_typing Sample.padded_address))))))
    by (left; reflexivity).
  split; [exact H|].
  destruct (fetch_only_valid_addresses Sample.env_failing _ _ H)
    as (digits & Hurl & Hlen & _).
  exists digits. split; [exact Hurl|exact Hlen].
Defined.

(** X4 on the address of the README, with a collaborator that answers. *)
Lemma body_read_on_success_only_witness :
  App.isValidAddress
    (trim (walletAddress (state (Sample.world_typing Sample.valid_address)))) = true
  /\ snd (fst (run (Sample.env_answering JNull) App.handleSubmit
                 (Sample.world_typing Sample.valid_address)))
     = [Issue (Fetch (lit "https://donkey-api.liquidlaunch.app/api/wallet/0xABCABCABCABCABCABCABCABCABCABCABCABCABCA"));
        Issue (ResponseJson {| ok := true |})].
Proof.
  split; [reflexivity|].
  exact (body_read_on_success_only (Sample.env_answering JNull)
           (Sample.world_typing Sample.valid_address) eq_refl).
Defined.

(** X5 on the address of the README, submitted on the empty page and over
    the card of an earlier lookup. *)
Lemma submission_replaces_outcome_witness :
  App.isValidAddress
    (trim (walletAddress (state (Sample.world_typing Sample.valid_address)))) = true
  /\ trim (walletAddress (state Sample.world_loaded))
     = trim (walletAddress (state (Sample.world_typing Sample.valid_address)))
  /\ stats (state Sample.world_loaded) <> JNull
  /\ stats (state (fst (fst (run Sample.env_failing App.handleSubmit
                               Sample.world_loaded))))
     = stats (state (fst (fst (run Sample.env_failing App.handleSubmit
                                 (Sample.world_typing Sample.valid_address))))).
Proof.
  split; [reflexivity|]. split; [reflexivity|]. split; [discriminate|].
  exact (proj1 (submission_replaces_outcome Sample.env_failing
                  (Sample.world_typing Sample.valid_address)
                  Sample.world_loaded eq_refl eq_refl)).
Defined.

(** X7 on the page where the address of the README has been submitted. *)
Lemma one_lookup_in_flight_witness :
  reachable Sample.page_loading
  /\ loading (state (world Sample.page_loading)) = true
  /\ lookups (pending Sample.page_loading) = 1%nat.
Proof.
  split; [exact reachable_page_loading|]. split; [reflexivity|].
  exact (proj1 (one_lookup_in_flight Sample.page_loading reachable_page_loading)
           eq_refl).
Defined.

(** X8 on the page where the save button of the card has been clicked. *)
Lemma one_capture_in_flight_witness :
  reachable Sample.page_exporting
  /\ isGeneratingImage (state (world Sample.page_exporting)) = true
  /\ captures (pending Sample.page_exporting) = 1%nat.
Proof.
  split; [exact reachable_page_exporting|]. split; [reflexivity|].
  exact (proj1 (one_capture_in_flight Sample.page_exporting
                  reachable_page_exporting) eq_refl).
Defined.

(** X10 on the card of the README. *)
Lemma export_name_of_valid_address_witness :
  statsCardRef Sample.world_loaded = Some Sample.readme_card
  /\ App.isValidAddress Sample.valid_address = true
  /\ exists digits,
       clicked (snd (fst (run (Sample.env_answering JNull) App.handleSaveClick
                            Sample.world_loaded)))
       = [(lit "wallet-stats-0x" ++ digits ++ lit ".png",
           lit "data:image/png;base64,iVBORw0KGgo=")]
       /\ List.length digits = 6%nat.
Proof.
  split; [reflexivity|]. split; [reflexivity|].
  destruct (export_name_of_valid_address (Sample.env_answering JNull)
              Sample.world_loaded Sample.readme_card Sample.png_canvas
              Sample.valid_address (lit "data:image/png;base64,iVBORw0KGgo=")
              eq_refl eq_refl eq_refl eq_refl eq_refl)
    as (digits & Hclick & Hlen & _).
  exists digits. split; [exact Hclick|exact Hlen].
Defined.


(** X12 on the card of the README, the export being resumed on the empty
    page. *)
Lemma export_names_stats_at_click_witness :
  statsCardRef Sample.world_loaded = Some Sample.readme_card
  /\ Json.get (lit "address") (stats (state Sample.world_loaded))
     = Some (JString Sample.valid_address)
  /\ exists k,
       snd (start App.handleSaveClick Sample.world_loaded)
       = Suspended (Html2Canvas Sample.readme_card
                      (App.png_options Sample.readme_card)) k
       /\ exists w2,
            start (k (Normal Sample.png_canvas)) initial_world
            = (w2,
               [LinkClick (lit "wallet-stats-0xABCABC.png")
                  (lit "data:image/png;base64,iVBORw0KGgo=")],
               Done (Normal tt)).
Proof.
  split; [reflexivity|]. split; [reflexivity|].
  destruct (export_names_stats_at_click Sample.world_loaded
              Sample.readme_card Sample.valid_address eq_refl eq_refl)
    as (k & Hk & Hresume).
  exists k. split; [exact Hk|].
  destruct (Hresume Sample.png_canvas (lit "data:image/png;base64,iVBORw0KGgo=")
              initial_world eq_refl) as (w2 & Hstart & _).
  exists w2. exact Hstart.
Defined.

(** X13 on the page where the address of the README has been submitted. *)
Lemma loading_view_witness :
  reachable Sample.page_loading
  /\ loading (state (world Sample.page_loading)) = true
  /\ Render.error_banner (Render.view (state (world Sample.page_loading))) = None
  /\ Render.card (Render.view (state (world Sample.page_loading)))
     = Render.NoCard.
Proof.
  split; [exact reachable_page_loading|]. split; [reflexivity|].
  rewrite (loading_view Sample.page_loading reachable_page_loading eq_refl).
  split; reflexivity.
Defined.

(** X14 on the input [abc]. *)
Lemma enabled_submit_is_not_blank_witness :
  Render.submit_disabled
    (Render.view (state (Sample.world_typing (lit "abc")))) = false
  /\ forallb is_white_space
       (walletAddress (state (Sample.world_typing (lit "abc")))) = false.
Proof.
  split; [reflexivity|].
  exact (proj1 (proj2 (enabled_submit_is_not_blank Sample.env_failing
                         (Sample.world_typing (lit "abc")) eq_refl))).
Defined.

(** X15 on the page where the address of the README has been submitted:
    the lookup fails, and the page is idle. *)
Lemma page_comes_to_rest_witness :
  reachable Sample.page_loading
  /\ settlements 1 Sample.page_loading (settle_with Sample.env_failing Sample.page_loading)
  /\ pending (settle_with Sample.env_failing Sample.page_loading) = []
  /\ loading (state (world (settle_with Sample.env_failing Sample.page_loading)))
     = false.
Proof.
  assert (S1 : settlements 1 Sample.page_loading
                 (settle_with Sample.env_failing Sample.page_loading)).
  { eapply settlements_more; [|apply settlements_none].
    exact (settlement_of Sample.page_loading _ _ _
             (Sample.env_failing _ _) [] [] eq_refl). }
  split; [exact reachable_page_loading|]. split; [exact S1|].
  split; [reflexivity|].
  exact (proj1 (proj2 (proj2 (proj2 (page_comes_to_rest Sample.page_loading
                                       reachable_page_loading _ _ S1)))
                  eq_refl)).
Defined.
